(** * URL uptime monitor: a model of [netlify/functions/url-monitor/index.mjs]

    The development follows the source file top-down:
    - a fragment of JavaScript values, enough for the [expect] rules that
      the configuration can hold;
    - [matchesExpectation], the status code matcher;
    - [checkOnce], [checkWithRetries], [summarizeAttempts] and [backoffMs],
      over an explicit world (the outcomes of [fetch], the readings of
      [Date.now]) and an event log;
    - [mapLimit], as the state machine of its workers, resumed one at a
      time in any order;
    - the report the handler builds from the results.

    Numbers are the integers: status codes, retry counts, list lengths and
    the bounds of a rule are integer valued in every configuration the
    source documents.  Where a rule has a text for a bound, the number it
    reads as is the engine's to say, and the model takes the engine as
    given. *)

From Stdlib Require Import ZArith List String Ascii Bool Lia.
From Equations Require Import Equations.
Import ListNotations.

Set Warnings "-register-all".
Local Open Scope string_scope.
Local Open Scope list_scope.
Local Open Scope Z_scope.

(* ===================================================================== *)
(** * JavaScript values *)
(* ===================================================================== *)

(** Plain data, as a configuration literal holds it: no function, no
    getter, no symbol.  An object is the table of its own properties, on
    the prototype of every plain object; a read returns the first binding
    of the key.  (A literal's [__proto__: v] entry sets another prototype
    and is no entry of this table.) *)
Inductive jsval : Type :=
| JUndef
| JNull
| JBool (b : bool)
| JNum (n : Z)
| JStr (s : string)
| JArr (elems : list jsval)
| JObj (props : list (string * jsval)).

(** A call either returns or throws an error, of which the code reads the
    name and the message. *)
Inductive completion (A : Type) : Type :=
| Normal (a : A)
| Throw (name message : string).
Arguments Normal {A} a.
Arguments Throw {A} name message.

Definition cbind {A B} (c : completion A) (k : A -> completion B) : completion B :=
  match c with
  | Normal a => k a
  | Throw name message => Throw name message
  end.

Declare Scope js_scope.
Delimit Scope js_scope with js.
Notation "x <- c ;; k" := (cbind c (fun x => k))
  (at level 61, c at next level, right associativity) : js_scope.

(** [!!v] *)
Definition truthy (v : jsval) : bool :=
  match v with
  | JUndef | JNull => false
  | JBool b => b
  | JNum n => negb (n =? 0)
  | JStr s => negb (s =? EmptyString)%string
  | JArr _ | JObj _ => true
  end.

(** [typeof v] *)
Definition typeof (v : jsval) : string :=
  match v with
  | JUndef => "undefined"
  | JNull | JArr _ | JObj _ => "object"
  | JBool _ => "boolean"
  | JNum _ => "number"
  | JStr _ => "string"
  end.

(** [v === s] for a string literal [s] *)
Definition strictEqStr (v : jsval) (s : string) : bool :=
  match v with
  | JStr s' => (s' =? s)%string
  | _ => false
  end.

(** [v == null] *)
Definition looseEqNull (v : jsval) : bool :=
  match v with
  | JUndef | JNull => true
  | _ => false
  end.

Definition isArray (v : jsval) : bool :=
  match v with
  | JArr _ => true
  | _ => false
  end.

Fixpoint lookup (k : string) (props : list (string * jsval)) : jsval :=
  match props with
  | [] => JUndef
  | (k', v) :: rest => if (k' =? k)%string then v else lookup k rest
  end.

(** [o.k]: throws on [undefined] and [null]; [length] is the one property
    arrays and strings have here. *)
Definition Get (o : jsval) (k : string) : completion jsval :=
  match o with
  | JUndef | JNull => Throw "TypeError" "Cannot read properties of undefined or null"
  | JObj props => Normal (lookup k props)
  | JArr elems =>
      if (k =? "length")%string then Normal (JNum (Z.of_nat (List.length elems)))
      else Normal JUndef
  | JStr s =>
      if (k =? "length")%string then Normal (JNum (Z.of_nat (String.length s)))
      else Normal JUndef
  | JBool _ | JNum _ => Normal JUndef
  end.

(** [v === n] for a number [n] *)
Definition strictEqNum (v : jsval) (n : Z) : bool :=
  match v with
  | JNum m => m =? n
  | _ => false
  end.

(** [arr.includes(n)] for a number [n] (SameValueZero, no coercion).  The
    source calls it on arrays only; any other receiver is an abrupt
    completion here. *)
Definition includes (arr : jsval) (n : Z) : completion bool :=
  match arr with
  | JArr elems => Normal (existsb (fun v => strictEqNum v n) elems)
  | _ => Throw "TypeError" "includes is not a function"
  end.

(** [const [a, b] = v]: missing elements are [undefined]; only arrays are
    destructured in the source. *)
Definition destructure2 (v : jsval) : completion (jsval * jsval) :=
  match v with
  | JArr elems => Normal (nth 0 elems JUndef, nth 1 elems JUndef)
  | _ => Throw "TypeError" "value is not iterable"
  end.

(** [arr.some(cb)] *)
Fixpoint some_elems (cb : jsval -> completion bool) (elems : list jsval) : completion bool :=
  match elems with
  | [] => Normal false
  | x :: rest =>
      cbind (cb x) (fun b => if b then Normal true else some_elems cb rest)
  end.

Definition some (arr : jsval) (cb : jsval -> completion bool) : completion bool :=
  match arr with
  | JArr elems => some_elems cb elems
  | _ => Throw "TypeError" "some is not a function"
  end.

(** ** The operands of [>=] and [<=]

    What the engine that runs the code decides, and the source does not:
    how a number compares with the number a text reads as ([n >= Number(s)]
    and [n <= Number(s)]), and the message of the TypeError it throws for
    an object it cannot turn into a primitive value. *)
Record Engine : Type := {
  atLeast : Z -> string -> bool;
  atMost : Z -> string -> bool;
  primitiveError : string
}.

Definition hasOwn (k : string) (props : list (string * jsval)) : bool :=
  existsb (fun p => (fst p =? k)%string) props.

(** The values the engine cannot turn into a text or a number.  A plain
    object converts through the [valueOf] and [toString] it finds; the
    inherited ones give ["[object Object]"], but an own [toString] entry,
    being data, is no function, and the conversion ends in a TypeError.
    An array converts through [join], which converts every element. *)
Fixpoint unprintable (v : jsval) : bool :=
  match v with
  | JObj props => hasOwn "toString" props
  | JArr elems => existsb unprintable elems
  | _ => false
  end.

(** What a value is as a number: a number, NaN, or the number a text reads
    as, which is left to the engine. *)
Inductive operand : Type :=
| Num (n : Z)
| NaN
| Text (s : string).

(** The operand an array converts to goes through its text, the elements
    joined by commas: none gives the empty text, which reads as 0; two or
    more give a text with a comma, which reads as NaN; a single one gives
    its own text.  The text of an object is ["[object Object]"]. *)
Fixpoint numberOf (v : jsval) : operand :=
  match v with
  | JUndef => NaN
  | JNull => Num 0
  | JBool b => Num (if b then 1 else 0)
  | JNum n => Num n
  | JStr s => Text s
  | JObj _ => NaN
  | JArr [] => Num 0
  | JArr [x] =>
      match x with
      | JUndef | JNull => Num 0
      | JBool _ => NaN
      | _ => numberOf x
      end
  | JArr (_ :: _ :: _) => NaN
  end.

Definition ToNumber (engine : Engine) (v : jsval) : completion operand :=
  if unprintable v then Throw "TypeError" (primitiveError engine)
  else Normal (numberOf v).

(** [n >= v] and [n <= v] for a number [n]; false when [v] is NaN. *)
Definition js_ge (engine : Engine) (n : Z) (v : jsval) : completion bool :=
  cbind (ToNumber engine v) (fun o =>
    Normal match o with
           | Num m => m <=? n
           | NaN => false
           | Text s => atLeast engine n s
           end).

Definition js_le (engine : Engine) (n : Z) (v : jsval) : completion bool :=
  cbind (ToNumber engine v) (fun o =>
    Normal match o with
           | Num m => n <=? m
           | NaN => false
           | Text s => atMost engine n s
           end).

(** Nesting depth of a value: a bound on the call frames the matcher needs. *)
Fixpoint jdepth (v : jsval) : nat :=
  match v with
  | JArr elems => S (fold_right (fun x d => Nat.max (jdepth x) d) O elems)
  | JObj props => S (fold_right (fun p d => Nat.max (jdepth (snd p)) d) O props)
  | _ => O
  end.

(* ===================================================================== *)
(** * Status code expectation matching *)
(* ===================================================================== *)

Local Open Scope js_scope.

(** The range test both [between] and [oneOfRanges] end in:
    [status >= min && status <= max], the second test made only when the
    first holds. *)
Definition inRange (engine : Engine) (status : Z) (range : jsval) : completion bool :=
  mm <- destructure2 range ;;
  let '(min, max) := mm in
  ge <- js_ge engine status min ;;
  if ge then js_le engine status max else Normal false.

(** [matchesExpectation], with the number of call frames left: each nested
    [not] takes one. *)
Fixpoint matchesExpectation_at (engine : Engine) (frames : nat)
  (status : option Z) (expect : jsval) : completion bool :=
  match frames with
  | O => Throw "RangeError" "Maximum call stack size exceeded"
  | S frames' =>
      match status with
      | None => Normal false
      | Some status =>
          if negb (truthy expect) || strictEqStr expect "2xx3xx"
          then Normal ((200 <=? status) && (status <? 400))
          else if (typeof expect =? "object")%string then
            not_ <- Get expect "not" ;;
            if truthy not_ then
              b <- matchesExpectation_at engine frames' (Some status) not_ ;;
              Normal (negb b)
            else
            anyOf <- Get expect "anyOf" ;;
            if truthy anyOf && isArray anyOf then includes anyOf status
            else
            between <- Get expect "between" ;;
            len <- (if truthy between && isArray between
                    then Get between "length" else Normal JUndef) ;;
            if truthy between && isArray between && strictEqNum len 2
            then inRange engine status between
            else
            oneOfRanges <- Get expect "oneOfRanges" ;;
            if truthy oneOfRanges && isArray oneOfRanges then
              some oneOfRanges (fun r =>
                rlen <- (if isArray r then Get r "length" else Normal JUndef) ;;
                if negb (isArray r) || negb (strictEqNum rlen 2) then Normal false
                else inRange engine status r)
            else Normal false
          else Normal false
      end
  end.

Definition matchesExpectation (engine : Engine) (status : option Z) (expect : jsval)
  : completion bool :=
  matchesExpectation_at engine (S (jdepth expect)) status expect.

Local Close Scope js_scope.

(* ===================================================================== *)
(** * The world of a run, and the commands that touch it *)
(* ===================================================================== *)

(** What [await fetch(url, {method, redirect, signal})] comes to: a response
    (after redirects), or a rejection with an error.  The abort the timer
    fires shows as a rejection named [AbortError]. *)
Inductive fetch_outcome : Type :=
| Responded (status : Z) (statusText : string)
| Rejected (name message : string).

(** The outcome of the n-th request of the run, the n-th reading of
    [Date.now()], and the engine the code runs on. *)
Record World : Type := {
  fetchOutcome : nat -> string -> string -> fetch_outcome;
  clock : nat -> Z;
  engine : Engine
}.

Inductive event : Type :=
| EvFetch (url method : string)
| EvSleep (ms : Z).

Record Counters : Type := {
  requests : nat;
  clockReads : nat
}.

(** A command reads and advances the counters and logs its events. *)
Definition IO (A : Type) : Type := Counters -> A * Counters * list event.

Definition ret {A} (a : A) : IO A := fun c => (a, c, []).

Definition bind {A B} (m : IO A) (k : A -> IO B) : IO B :=
  fun c =>
    let '(a, c1, log1) := m c in
    let '(b, c2, log2) := k a c1 in
    (b, c2, log1 ++ log2).

Declare Scope io_scope.
Delimit Scope io_scope with io.
Notation "x <- c ;; k" := (bind c (fun x => k))
  (at level 61, c at next level, right associativity) : io_scope.
Notation "c ;;; k" := (bind c (fun _ => k))
  (at level 61, right associativity) : io_scope.

Definition fetch (world : World) (url method : string) : IO fetch_outcome :=
  fun c =>
    (fetchOutcome world (requests c) url method,
     {| requests := S (requests c); clockReads := clockReads c |},
     [EvFetch url method]).

Definition dateNow (world : World) : IO Z :=
  fun c =>
    (clock world (clockReads c),
     {| requests := requests c; clockReads := S (clockReads c) |},
     []).

Definition sleep (ms : Z) : IO unit := fun c => (tt, c, [EvSleep ms]).

(* ===================================================================== *)
(** * Monitors, attempts and summaries *)
(* ===================================================================== *)

Module Monitor.
(** An absent [method], [timeoutMs] or [retries] is [None]; an absent
    [expect] is [JUndef]. *)
Record t : Type := {
  url : string;
  method : option string;
  expect : jsval;
  timeoutMs : option Z;
  retries : option Z
}.
End Monitor.

Module Attempt.
Record t : Type := {
  ok : bool;
  status : option Z;
  statusText : option string;
  error : option string;
  durationMs : Z
}.
End Attempt.

Module Summary.
Record t : Type := {
  url : string;
  ok : bool;
  expect : jsval;
  method : string;
  attempts : Z;
  lastStatus : option Z;
  lastError : option string;
  attemptDetails : list Attempt.t
}.
End Summary.

(** [x || d] on an optional string: the empty string is falsy too. *)
Definition orString (x : option string) (d : string) : string :=
  match x with
  | Some s => if (s =? EmptyString)%string then d else s
  | None => d
  end.

(** [x ?? d] *)
Definition nullish {A} (x : option A) (d : A) : A :=
  match x with
  | Some a => a
  | None => d
  end.

Definition nullishVal (x d : jsval) : jsval :=
  if looseEqNull x then d else x.

(** [arr[i]] *)
Definition index {A} (arr : list A) (i : Z) : option A :=
  if i <? 0 then None else nth_error arr (Z.to_nat i).

(** [Math.min(2000, 250 * Math.pow(2, attemptIndex - 1))], for the indices
    the loop passes: 1 and up. *)
Definition backoffMs (attemptIndex : Z) : Z :=
  Z.min 2000 (250 * 2 ^ (attemptIndex - 1)).

Definition summarizeAttempts (monitor : Monitor.t) (attempts : list Attempt.t)
  : completion Summary.t :=
  match index attempts (Z.of_nat (List.length attempts) - 1) with
  | None => Throw "TypeError" "Cannot read properties of undefined (reading 'status')"
  | Some last =>
      Normal {|
        Summary.url := Monitor.url monitor;
        Summary.ok := existsb Attempt.ok attempts;
        Summary.expect := nullishVal (Monitor.expect monitor) (JStr "2xx3xx");
        Summary.method := nullish (Monitor.method monitor) "HEAD";
        Summary.attempts := Z.of_nat (List.length attempts);
        Summary.lastStatus := Attempt.status last;
        Summary.lastError := Attempt.error last;
        Summary.attemptDetails := attempts
      |}
  end.

Section Checks.
Variable world : World.
Local Open Scope io_scope.

(** The [catch] branch of [checkOnce]. *)
Definition caught (startedAt : Z) (name message : string) : IO Attempt.t :=
  now <- dateNow world ;;
  ret {|
    Attempt.ok := false;
    Attempt.status := None;
    Attempt.statusText := None;
    Attempt.error :=
      Some (if (name =? "AbortError")%string then "timeout"
            else if (message =? EmptyString)%string then name else message);
    Attempt.durationMs := now - startedAt
  |}.

(** The rest of the [try] block, once the response to use is in hand. *)
Definition classify (monitor : Monitor.t) (startedAt : Z) (res : fetch_outcome)
  : IO Attempt.t :=
  match res with
  | Rejected name message => caught startedAt name message
  | Responded status statusText =>
      match matchesExpectation (engine world) (Some status)
              (Monitor.expect monitor) with
      | Throw name message => caught startedAt name message
      | Normal ok =>
          now <- dateNow world ;;
          ret {|
            Attempt.ok := ok;
            Attempt.status := Some status;
            Attempt.statusText := Some statusText;
            Attempt.error := None;
            Attempt.durationMs := now - startedAt
          |}
      end
  end.

(** One probe.  The timer and the abort it fires belong to the world: a
    request the timer aborts is one rejected with [AbortError], so
    [timeoutMs] has no other part here. *)
Definition checkOnce (monitor : Monitor.t) (timeoutMs : Z) : IO Attempt.t :=
  startedAt <- dateNow world ;;
  let method := orString (Monitor.method monitor) "HEAD" in
  res <- fetch world (Monitor.url monitor) method ;;
  match res with
  | Rejected name message => caught startedAt name message
  | Responded status _ =>
      if ((status =? 405) || (status =? 501)) && (method =? "HEAD")%string then
        res <- fetch world (Monitor.url monitor) "GET" ;;
        classify monitor startedAt res
      else classify monitor startedAt res
  end.

Section Retries.
Variable monitor : Monitor.t.
Variable timeoutMs : Z.
Variable totalAttempts : Z.

(** [for (let i = 1; i <= totalAttempts; i++) { ... }] and the
    [return] after it, from the value of [i] on. *)
Equations? attemptLoop (i : Z) (attempts : list Attempt.t)
  : IO (completion Summary.t) by wf (Z.to_nat (totalAttempts + 1 - i)) lt :=
  attemptLoop i attempts with Z_le_gt_dec i totalAttempts := {
    | left _ =>
        attempt <- checkOnce monitor timeoutMs ;;
        let attempts := attempts ++ [attempt] in
        if Attempt.ok attempt then ret (summarizeAttempts monitor attempts)
        else
          (if i <? totalAttempts then sleep (backoffMs i) else ret tt) ;;;
          attemptLoop (i + 1) attempts
    | right _ => ret (summarizeAttempts monitor attempts) }.
Proof. lia. Qed.
End Retries.

Definition checkWithRetries (monitor : Monitor.t) (timeoutMs retries : Z)
  : IO (completion Summary.t) :=
  let totalAttempts := Z.max 1 (retries + 1) in
  attemptLoop monitor timeoutMs totalAttempts 1 [].

End Checks.

Definition CONCURRENCY : Z := 10.


Definition start : Counters := {| requests := 0; clockReads := 0 |}.

(* ===================================================================== *)
(** * Bounded concurrency: [mapLimit] *)
(* ===================================================================== *)

(** [arr[idx] = v] on an array that may be shorter: the gap is left as
    holes ([None]). *)
Fixpoint array_set {X} (arr : list (option X)) (idx : nat) (v : X) : list (option X) :=
  match idx, arr with
  | O, [] => [Some v]
  | O, _ :: rest => Some v :: rest
  | S k, [] => None :: array_set [] k v
  | S k, x :: rest => x :: array_set rest k v
  end.

(** A worker is suspended at its [await], holding the index it claimed, or
    has left its loop. *)
Inductive worker : Type :=
| Awaiting (idx : nat)
| Finished.

Module Pool.
(** The variables the workers share: [ret], [i], and the workers. *)
Record t (B : Type) : Type := {
  ret : list (option B);
  i : nat;
  workers : list worker
}.
Arguments ret {B} _.
Arguments i {B} _.
Arguments workers {B} _.
End Pool.

Section MapLimit.
Context {A B : Type}.
(** What [items[idx]] reads past the end. *)
Variable undef : A.
(** The value the promise [fn(item)] resolves to. *)
Variable fn : A -> B.
Variable items : list A.

(** A worker at the head of [while (i < items.length)]: it claims
    [idx = i++] and suspends on [fn(items[idx])], or leaves. *)
Definition loopHead (i : nat) : nat * worker :=
  if (i <? List.length items)%nat then (S i, Awaiting i) else (i, Finished).

(** [Array.from({ length: n }, async () => ...)]: each worker in turn
    runs up to its first [await]. *)
Fixpoint spawn (n : nat) (i : nat) : nat * list worker :=
  match n with
  | O => (i, [])
  | S n' =>
      let '(i1, w) := loopHead i in
      let '(i2, ws) := spawn n' i1 in
      (i2, w :: ws)
  end.

Definition launch (limit : Z) : Pool.t B :=
  let n := Z.to_nat (Z.min limit (Z.of_nat (List.length items))) in
  let '(i, ws) := spawn n O in
  {| Pool.ret := []; Pool.i := i; Pool.workers := ws |}.

Fixpoint set_worker (ws : list worker) (w : nat) (st : worker) : list worker :=
  match ws, w with
  | [], _ => []
  | _ :: rest, O => st :: rest
  | x :: rest, S w' => x :: set_worker rest w' st
  end.

(** The promise worker [w] waits on settles: the worker stores the value
    and goes round its loop once.  [None] when [w] is not waiting. *)
Definition resume (w : nat) (p : Pool.t B) : option (Pool.t B) :=
  match nth_error (Pool.workers p) w with
  | Some (Awaiting idx) =>
      let ret := array_set (Pool.ret p) idx (fn (nth idx items undef)) in
      let '(i, st) := loopHead (Pool.i p) in
      Some {| Pool.ret := ret; Pool.i := i;
              Pool.workers := set_worker (Pool.workers p) w st |}
  | _ => None
  end.

(** The workers resumed in the order of [schedule]. *)
Fixpoint run (schedule : list nat) (p : Pool.t B) : option (Pool.t B) :=
  match schedule with
  | [] => Some p
  | w :: rest =>
      match resume w p with
      | Some p' => run rest p'
      | None => None
      end
  end.

Definition isFinished (w : worker) : bool :=
  match w with
  | Finished => true
  | Awaiting _ => false
  end.

(** [await Promise.all(workers)] is through when every worker has left. *)
Definition settled (p : Pool.t B) : bool := forallb isFinished (Pool.workers p).

(** The array [mapLimit] returns when its promises settle in the order
    of [schedule]; [None] when that is not an order in which this call
    can run to its end. *)
Definition mapLimit (limit : Z) (schedule : list nat) : option (list (option B)) :=
  match run schedule (launch limit) with
  | Some p => if settled p then Some (Pool.ret p) else None
  | None => None
  end.

End MapLimit.

(* ===================================================================== *)
(** * The report of the handler *)
(* ===================================================================== *)

Module Env.
Record t : Type := {
  RESEND_API_KEY : option string;
  ALERT_EMAIL_TO : option string;
  ALERT_EMAIL_FROM : option string
}.
End Env.

(** What [await resend.emails.send(...)] comes to. *)
Inductive send_outcome : Type :=
| Sent (id : option string)
| SendFailed (message : string).

Module Totals.
Record t : Type := {
  checked : Z;
  down : Z;
  up : Z
}.
End Totals.

Module Body.
(** The JSON body; a key a branch leaves out is [None].  The clock
    readings [durationMs] and [timestamp] are left out. *)
Record t : Type := {
  ok : bool;
  error : option string;
  details : option string;
  emailSent : option bool;
  emailId : option string;
  totals : Totals.t;
  down : list Summary.t;
  results : list Summary.t
}.
End Body.

(** [!s] on an environment variable *)
Definition unset (s : option string) : bool :=
  match s with
  | Some t => (t =? EmptyString)%string
  | None => true
  end.

(** The handler from [const down = ...] to its end: the HTTP status and
    the body of the response. *)
Definition report (env : Env.t) (send : send_outcome) (results : list Summary.t)
  : Z * Body.t :=
  let down := filter (fun r => negb (Summary.ok r)) results in
  let totals := {|
    Totals.checked := Z.of_nat (List.length results);
    Totals.down := Z.of_nat (List.length down);
    Totals.up := Z.of_nat (List.length results) - Z.of_nat (List.length down)
  |} in
  if Z.of_nat (List.length down) >? 0 then
    if unset (Env.RESEND_API_KEY env) || unset (Env.ALERT_EMAIL_TO env)
       || unset (Env.ALERT_EMAIL_FROM env)
    then
      (500, {| Body.ok := false;
               Body.error := Some "Some URLs are down, but RESEND_API_KEY / ALERT_EMAIL_TO / ALERT_EMAIL_FROM env vars are missing.";
               Body.details := None;
               Body.emailSent := None; Body.emailId := None;
               Body.totals := totals; Body.down := down; Body.results := results |})
    else
      match send with
      | SendFailed message =>
          (502, {| Body.ok := false;
                   Body.error := Some "Failed to send alert email via Resend.";
                   Body.details := Some message;
                   Body.emailSent := None; Body.emailId := None;
                   Body.totals := totals; Body.down := down; Body.results := results |})
      | Sent id =>
          (200, {| Body.ok := Z.of_nat (List.length down) =? 0;
                   Body.error := None; Body.details := None;
                   Body.emailSent := Some true; Body.emailId := id;
                   Body.totals := totals; Body.down := down; Body.results := results |})
      end
  else
    (200, {| Body.ok := Z.of_nat (List.length down) =? 0;
             Body.error := None; Body.details := None;
             Body.emailSent := Some false; Body.emailId := None;
             Body.totals := totals; Body.down := down; Body.results := results |}).

(* ===================================================================== *)
(** * Vocabulary of the statements *)
(* ===================================================================== *)

(** [{ not: R }] *)
Definition negate (R : jsval) : jsval := JObj [("not", R)].

(** [!c], when [c] returns. *)
Definition cnot (c : completion bool) : completion bool :=
  cbind c (fun b => Normal (negb b)).

(** The callback of [oneOfRanges.some]. *)
Definition rangeEntry (engine : Engine) (status : Z) (r : jsval) : completion bool :=
  cbind (if isArray r then Get r "length" else Normal JUndef) (fun rlen =>
    if negb (isArray r) || negb (strictEqNum rlen 2) then Normal false
    else inRange engine status r).

(** An entry of [oneOfRanges] the callback goes on to compare with: an
    array of two elements. *)
Definition isPair (r : jsval) : bool :=
  match r with
  | JArr [_; _] => true
  | _ => false
  end.

(** ** The forms of a rule, as the specification lists them *)

(** The default: an absent rule, or the sentinel. *)
Definition isDefault (R : jsval) : bool :=
  looseEqNull R || strictEqStr R "2xx3xx".

Definition isNegation (R : jsval) : bool :=
  match R with
  | JObj props => truthy (lookup "not" props)
  | _ => false
  end.

Definition isFixedSet (R : jsval) : bool :=
  match R with
  | JObj props => isArray (lookup "anyOf" props)
  | _ => false
  end.

Definition isSingleRange (R : jsval) : bool :=
  match R with
  | JObj props =>
      match lookup "between" props with
      | JArr [_; _] => true
      | _ => false
      end
  | _ => false
  end.

Definition isRangeSet (R : jsval) : bool :=
  match R with
  | JObj props => isArray (lookup "oneOfRanges" props)
  | _ => false
  end.

Definition recognized (R : jsval) : bool :=
  isDefault R || isNegation R || isFixedSet R || isSingleRange R || isRangeSet R.

(** ** Runs of the retry loop *)

Section Probes.
Variable world : World.
Variable monitor : Monitor.t.
Variable timeoutMs : Z.

(** One probe from the counters [c]: its attempt, the counters it
    leaves, the events it logs. *)
Definition attemptFrom (c : Counters) : Attempt.t :=
  fst (fst (checkOnce world monitor timeoutMs c)).
Definition next (c : Counters) : Counters :=
  snd (fst (checkOnce world monitor timeoutMs c)).
Definition probeLog (c : Counters) : list event :=
  snd (checkOnce world monitor timeoutMs c).

(** The counters after [n] probes in a row. *)
Fixpoint countersAfter (n : nat) (c : Counters) : Counters :=
  match n with
  | O => c
  | S n' => countersAfter n' (next c)
  end.

(** The outcome of probe number [j] of the run, counted from 0. *)
Definition probeAt (c : Counters) (j : nat) : Attempt.t :=
  attemptFrom (countersAfter j c).

(** The probes a loop makes that has [n] turns left: up to the first
    success. *)
Fixpoint stopAt (n : nat) (c : Counters) : nat :=
  match n with
  | O => O
  | S n' => if Attempt.ok (attemptFrom c) then 1%nat else S (stopAt n' (next c))
  end.

(** The log of [k] probes, the first with loop index [i], with the
    backoff sleeps between them and none after the last. *)
Fixpoint traceFrom (i : Z) (k : nat) (c : Counters) : list event :=
  match k with
  | O => []
  | S k' =>
      probeLog c
      ++ match k' with
         | O => []
         | S _ => EvSleep (backoffMs i) :: traceFrom (i + 1) k' (next c)
         end
  end.
End Probes.

Definition sleepsOf (log : list event) : list Z :=
  flat_map (fun e => match e with EvSleep ms => [ms] | EvFetch _ _ => [] end) log.

Definition fetchesOf (log : list event) : list (string * string) :=
  flat_map (fun e => match e with EvFetch u m => [(u, m)] | EvSleep _ => [] end) log.

(** The integers [i, i + 1, ..., i + n - 1]. *)
Fixpoint zrange (i : Z) (n : nat) : list Z :=
  match n with
  | O => []
  | S n' => i :: zrange (i + 1) n'
  end.

(** ** One probe *)

(** The attempt of the [catch] branch, for an error of this name and
    message. *)
Definition failedAttempt (name message : string) (duration : Z) : Attempt.t :=
  {| Attempt.ok := false;
     Attempt.status := None;
     Attempt.statusText := None;
     Attempt.error :=
       Some (if (name =? "AbortError")%string then "timeout"
             else if (message =? EmptyString)%string then name else message);
     Attempt.durationMs := duration |}.

(** The attempt [checkOnce] makes of the response it settles on, given the
    time the probe took: that of the [catch] branch when the request was
    rejected, and when the matcher throws on the status of the response. *)
Definition attemptOf (engine : Engine) (monitor : Monitor.t) (res : fetch_outcome)
  (duration : Z) : Attempt.t :=
  match res with
  | Responded status statusText =>
      match matchesExpectation engine (Some status) (Monitor.expect monitor) with
      | Normal ok =>
          {| Attempt.ok := ok;
             Attempt.status := Some status;
             Attempt.statusText := Some statusText;
             Attempt.error := None;
             Attempt.durationMs := duration |}
      | Throw name message => failedAttempt name message duration
      end
  | Rejected name message => failedAttempt name message duration
  end.

(** The probe method is HEAD and the first response is a 405 or a 501. *)
Definition fallsBack (method : string) (first : fetch_outcome) : bool :=
  (method =? "HEAD")%string &&
  match first with
  | Responded status _ => (status =? 405) || (status =? 501)
  | Rejected _ _ => false
  end.

(** ** The pool of [mapLimit] *)

(** [arr[idx]], [None] on a hole and past the end. *)
Definition read {X} (arr : list (option X)) (idx : nat) : option X :=
  match nth_error arr idx with
  | Some (Some v) => Some v
  | _ => None
  end.

(** The workers still waiting. *)
Definition pending (ws : list worker) : nat :=
  List.length (filter (fun w => negb (isFinished w)) ws).

Section PoolInvariant.
Context {A B : Type}.
Variable undef : A.
Variable fn : A -> B.
Variable items : list A.

(** What holds of the pool after [k] resumptions: the indices below [i]
    are claimed, each by one waiting worker or else stored in [ret]; a
    worker leaves only when every index is claimed. *)
Record Inv (k : nat) (p : Pool.t B) : Prop := {
  inv_cursor : (Pool.i p <= List.length items)%nat;
  inv_claimed : forall w idx,
    nth_error (Pool.workers p) w = Some (Awaiting idx) -> (idx < Pool.i p)%nat;
  inv_distinct : forall w1 w2 idx,
    nth_error (Pool.workers p) w1 = Some (Awaiting idx) ->
    nth_error (Pool.workers p) w2 = Some (Awaiting idx) -> w1 = w2;
  inv_stored : forall idx,
    (idx < Pool.i p)%nat ->
    (forall w, nth_error (Pool.workers p) w <> Some (Awaiting idx)) ->
    read (Pool.ret p) idx = Some (fn (nth idx items undef));
  inv_length : (List.length (Pool.ret p) <= Pool.i p)%nat;
  inv_left : forall w,
    nth_error (Pool.workers p) w = Some Finished -> Pool.i p = List.length items;
  inv_count : (pending (Pool.workers p) + k)%nat = Pool.i p
}.
End PoolInvariant.

(** ** Worlds to run the checks in *)

(** An engine to run the examples on.  Their rules have numbers where a
    number is wanted, so what an engine makes of a text is not asked of
    it, and they come out the same on every engine; this one reads every
    text as NaN. *)
Definition plain : Engine := {|
  atLeast := fun _ _ => false;
  atMost := fun _ _ => false;
  primitiveError := "Cannot convert object to primitive value"
|}.

(** The monitor the source configures. *)
Definition MONITORS : list Monitor.t :=
  [ {| Monitor.url := "https://github.com/vagelisp/netlify-uptime-monitor";
       Monitor.method := Some "HEAD";
       Monitor.expect := JStr "2xx3xx";
       Monitor.timeoutMs := None;
       Monitor.retries := None |} ].

Definition github : Monitor.t :=
  nth 0 MONITORS
    {| Monitor.url := EmptyString; Monitor.method := None; Monitor.expect := JUndef;
       Monitor.timeoutMs := None; Monitor.retries := None |}.

(** A server that answers 503 twice and 200 from then on. *)
Definition recovering : World := {|
  fetchOutcome := fun n _ _ =>
    if (n <? 2)%nat then Responded 503 "Service Unavailable" else Responded 200 "OK";
  clock := fun n => 1000 + 40 * Z.of_nat n;
  engine := plain
|}.

(** A host no request reaches. *)
Definition unreachable : World := {|
  fetchOutcome := fun _ _ _ => Rejected "TypeError" "fetch failed";
  clock := fun n => 1000 + 40 * Z.of_nat n;
  engine := plain
|}.

(** ** The guard of the handler *)

(** The test the handler opens with: [token] is [process.env.MONITOR_TOKEN],
    [auth] the [authorization] header of the request, each [None] when
    absent.  False is the 401 branch. *)
Definition authorized (token auth : option string) : bool :=
  match token with
  | None => true
  | Some t =>
      if (t =? EmptyString)%string then true
      else (orString auth EmptyString =? "Bearer " ++ t)%string
  end.

(** What the handler answers: the 401 of the guard, or the report. *)
Inductive response : Type :=
| Denied (status : Z) (error : string)
| Reported (status : Z) (body : Body.t).

(** The handler around the checks: [results] is what
    [await mapLimit(MONITORS, CONCURRENCY, ...)] gives once the guard is
    passed. *)
Definition handler (token auth : option string) (env : Env.t) (send : send_outcome)
  (results : list Summary.t) : response :=
  if authorized token auth then
    let '(status, body) := report env send results in Reported status body
  else Denied 401 "Unauthorized".

(** A request of a monitor: to its address, with its method or with the
    GET of the fallback from HEAD. *)
Definition ownRequest (monitor : Monitor.t) (r : string * string) : Prop :=
  fst r = Monitor.url monitor
  /\ (snd r = orString (Monitor.method monitor) "HEAD"
      \/ (orString (Monitor.method monitor) "HEAD" = "HEAD" /\ snd r = "GET")).

(** The sum of a list of delays. *)
Definition zsum (l : list Z) : Z := fold_right Z.add 0 l.

(* ===================================================================== *)
(** * Properties of the matcher *)
(* ===================================================================== *)

Lemma lookup_depth (k : string) (props : list (string * jsval)) :
  (jdepth (lookup k props) < jdepth (JObj props))%nat.
Proof.
  induction props as [|[k' v] rest IH]; cbn [lookup].
  - cbn. lia.
  - destruct (k' =? k)%string; cbn [jdepth fold_right snd] in *; lia.
Qed.

Lemma Get_not_depth (e v : jsval) :
  Get e "not" = Normal v -> truthy v = true -> (jdepth v < jdepth e)%nat.
Proof.
  destruct e; cbn; intros H Ht; inversion H; subst; try discriminate.
  apply lookup_depth.
Qed.

Lemma isArray_inv (v : jsval) : isArray v = true -> exists elems, v = JArr elems.
Proof. destruct v; try discriminate; eauto. Qed.

Lemma some_elems_ext (f g : jsval -> completion bool) (elems : list jsval) :
  (forall r, f r = g r) -> some_elems f elems = some_elems g elems.
Proof.
  intros Hfg. induction elems as [|x rest IH]; cbn [some_elems]; [reflexivity|].
  rewrite Hfg, IH. reflexivity.
Qed.

(** The [between] test of the source fails on everything but an array of
    two elements. *)
Lemma between_test (between : jsval) :
  cbind (if truthy between && isArray between
         then Get between "length" else Normal JUndef) (fun len =>
    Normal (truthy between && isArray between && strictEqNum len 2))
  = Normal (isPair between).
Proof.
  destruct between as [| | | | |elems|]; try reflexivity.
  - cbn; destruct b; reflexivity.
  - cbn; destruct (negb (n =? 0)); reflexivity.
  - cbn; destruct (negb (s =? EmptyString)%string); reflexivity.
  - cbn [truthy isArray andb Get]. rewrite String.eqb_refl. cbn [cbind strictEqNum].
    destruct elems as [|a [|b [|c rest]]]; try reflexivity.
    f_equal. apply Z.eqb_neq. cbn [List.length]. lia.
Qed.

Section MatcherFacts.
Variable engine : Engine.

Lemma inRange_numbers (status lo hi : Z) :
  inRange engine status (JArr [JNum lo; JNum hi])
  = Normal ((lo <=? status) && (status <=? hi)).
Proof.
  unfold inRange, js_ge, js_le, ToNumber. cbn.
  destruct (lo <=? status); reflexivity.
Qed.

(** The callback returns false on an entry that is no array of two
    elements, and goes on to the range test on one that is. *)
Lemma rangeEntry_eq (status : Z) (r : jsval) :
  rangeEntry engine status r
  = if isPair r then inRange engine status r else Normal false.
Proof.
  destruct r as [| | | | |elems|]; try reflexivity.
  destruct elems as [|a [|b [|c rest]]]; try reflexivity.
  unfold rangeEntry. cbn [isArray Get isPair]. rewrite String.eqb_refl.
  cbn [cbind negb orb strictEqNum].
  replace (Z.of_nat (List.length (a :: b :: c :: rest)) =? 2) with false; [reflexivity|].
  symmetry. apply Z.eqb_neq. cbn [List.length]. lia.
Qed.

(** [some] over the entries is [some] over those it compares with. *)
Lemma some_elems_pairs (status : Z) (elems : list jsval) :
  some_elems (rangeEntry engine status) elems
  = some_elems (inRange engine status) (filter isPair elems).
Proof.
  induction elems as [|x rest IH]; cbn [some_elems filter]; [reflexivity|].
  rewrite rangeEntry_eq. destruct (isPair x); cbn [some_elems cbind].
  - rewrite IH. reflexivity.
  - exact IH.
Qed.

(** One call frame of the matcher, unfolded. *)
Lemma matchesExpectation_at_S (frames : nat) (status : Z) (expect : jsval) :
  matchesExpectation_at engine (S frames) (Some status) expect =
  if negb (truthy expect) || strictEqStr expect "2xx3xx"
  then Normal ((200 <=? status) && (status <? 400))
  else if (typeof expect =? "object")%string then
    cbind (Get expect "not") (fun not_ =>
    if truthy not_ then cnot (matchesExpectation_at engine frames (Some status) not_)
    else
    cbind (Get expect "anyOf") (fun anyOf =>
    if truthy anyOf && isArray anyOf then includes anyOf status
    else
    cbind (Get expect "between") (fun between =>
    cbind (if truthy between && isArray between
           then Get between "length" else Normal JUndef) (fun len =>
    if truthy between && isArray between && strictEqNum len 2
    then inRange engine status between
    else
    cbind (Get expect "oneOfRanges") (fun oneOfRanges =>
    if truthy oneOfRanges && isArray oneOfRanges
    then some oneOfRanges (rangeEntry engine status)
    else Normal false)))))
  else Normal false.
Proof. reflexivity. Qed.

(** Frames beyond the nesting depth of the rule change nothing. *)
Lemma matchesExpectation_at_frames (f1 f2 : nat) (status : option Z) (expect : jsval) :
  (jdepth expect < f1)%nat -> (jdepth expect < f2)%nat ->
  matchesExpectation_at engine f1 status expect
  = matchesExpectation_at engine f2 status expect.
Proof.
  revert f2 expect.
  induction f1 as [|f1 IH]; intros f2 expect H1 H2; [lia|].
  destruct f2 as [|f2]; [lia|].
  destruct status as [status|]; [|reflexivity].
  rewrite !matchesExpectation_at_S.
  destruct (negb (truthy expect) || strictEqStr expect "2xx3xx"); [reflexivity|].
  destruct (typeof expect =? "object")%string; [|reflexivity].
  destruct (Get expect "not") as [not_|name message] eqn:Hget; [|reflexivity].
  cbn [cbind].
  destruct (truthy not_) eqn:Ht; [|reflexivity].
  pose proof (Get_not_depth _ _ Hget Ht) as Hd.
  rewrite (IH f2 not_) by lia. reflexivity.
Qed.

Lemma matchesExpectation_at_enough (frames : nat) (status : option Z) (expect : jsval) :
  (jdepth expect < frames)%nat ->
  matchesExpectation_at engine frames status expect
  = matchesExpectation engine status expect.
Proof.
  intros H. unfold matchesExpectation. apply matchesExpectation_at_frames; lia.
Qed.

(** The body of the source function, as an equation on [matchesExpectation]. *)
Lemma matchesExpectation_eq (status : Z) (expect : jsval) :
  matchesExpectation engine (Some status) expect =
  if negb (truthy expect) || strictEqStr expect "2xx3xx"
  then Normal ((200 <=? status) && (status <? 400))
  else if (typeof expect =? "object")%string then
    cbind (Get expect "not") (fun not_ =>
    if truthy not_ then cnot (matchesExpectation engine (Some status) not_)
    else
    cbind (Get expect "anyOf") (fun anyOf =>
    if truthy anyOf && isArray anyOf then includes anyOf status
    else
    cbind (Get expect "between") (fun between =>
    cbind (if truthy between && isArray between
           then Get between "length" else Normal JUndef) (fun len =>
    if truthy between && isArray between && strictEqNum len 2
    then inRange engine status between
    else
    cbind (Get expect "oneOfRanges") (fun oneOfRanges =>
    if truthy oneOfRanges && isArray oneOfRanges
    then some oneOfRanges (rangeEntry engine status)
    else Normal false)))))
  else Normal false.
Proof.
  unfold matchesExpectation at 1. rewrite matchesExpectation_at_S.
  destruct (negb (truthy expect) || strictEqStr expect "2xx3xx"); [reflexivity|].
  destruct (typeof expect =? "object")%string; [|reflexivity].
  destruct (Get expect "not") as [not_|name message] eqn:Hget; [|reflexivity].
  cbn [cbind].
  destruct (truthy not_) eqn:Ht; [|reflexivity].
  pose proof (Get_not_depth _ _ Hget Ht) as Hd.
  rewrite matchesExpectation_at_enough by lia. reflexivity.
Qed.

Lemma matchesExpectation_absent (expect : jsval) :
  matchesExpectation engine None expect = Normal false.
Proof. reflexivity. Qed.

Lemma ranges_test (status : Z) (ranges : jsval) :
  (if truthy ranges && isArray ranges
   then some ranges (rangeEntry engine status) else Normal false)
  = match ranges with
    | JArr elems => some_elems (inRange engine status) (filter isPair elems)
    | _ => Normal false
    end.
Proof.
  destruct ranges as [| |b|n|s|elems|props]; try reflexivity.
  - cbn; destruct b; reflexivity.
  - cbn; destruct (negb (n =? 0)); reflexivity.
  - cbn; destruct (negb (s =? EmptyString)%string); reflexivity.
  - cbn [truthy isArray andb some]. apply some_elems_pairs.
Qed.

(** The body of the function on an object whose [not] is falsy and whose
    [anyOf] is no array. *)
Lemma matchesExpectation_ranges_or_between (status : Z) (props : list (string * jsval)) :
  isNegation (JObj props) = false ->
  isFixedSet (JObj props) = false ->
  matchesExpectation engine (Some status) (JObj props) =
  if isPair (lookup "between" props)
  then inRange engine status (lookup "between" props)
  else match lookup "oneOfRanges" props with
       | JArr ranges => some_elems (inRange engine status) (filter isPair ranges)
       | _ => Normal false
       end.
Proof.
  cbn [isNegation isFixedSet]. intros Hn Hf.
  rewrite matchesExpectation_eq. cbn [truthy negb orb strictEqStr typeof Get cbind].
  change ("object" =? "object")%string with true. cbn iota.
  rewrite Hn, Hf, andb_false_r.
  pose proof (between_test (lookup "between" props)) as Hb.
  rewrite <- ranges_test.
  destruct (truthy (lookup "between" props) && isArray (lookup "between" props)) eqn:Hba;
    cbn [cbind andb] in *.
  - destruct (Get (lookup "between" props) "length") as [len|name message];
      cbn [cbind] in *; [|discriminate].
    injection Hb as Hb'. rewrite Hb'. reflexivity.
  - injection Hb as Hb'. rewrite <- Hb'. reflexivity.
Qed.

(** An object that is none of negation, fixed set or single range is
    judged by its [oneOfRanges] alone, and there by the entries that are
    arrays of two elements. *)
Lemma matchesExpectation_ranges (status : Z) (props : list (string * jsval)) :
  isNegation (JObj props) = false ->
  isFixedSet (JObj props) = false ->
  isSingleRange (JObj props) = false ->
  matchesExpectation engine (Some status) (JObj props) =
  match lookup "oneOfRanges" props with
  | JArr ranges => some_elems (inRange engine status) (filter isPair ranges)
  | _ => Normal false
  end.
Proof.
  intros Hn Hf Hs. rewrite matchesExpectation_ranges_or_between by assumption.
  cbn [isSingleRange] in Hs. fold (isPair (lookup "between" props)) in Hs.
  rewrite Hs. reflexivity.
Qed.

(** A truthy rule of no recognized form matches nothing. *)
Lemma unrecognized_false (status : Z) (R : jsval) :
  truthy R = true -> recognized R = false ->
  matchesExpectation engine (Some status) R = Normal false.
Proof.
  unfold recognized, isDefault. intros Ht Hr.
  rewrite !orb_false_iff in Hr.
  destruct Hr as [[[[[Hnull Hsent] Hneg] Hfix] Hsr] Hrs].
  destruct R as [| |b|n|s|elems|props]; try discriminate.
  - rewrite matchesExpectation_eq, Ht. reflexivity.
  - rewrite matchesExpectation_eq, Ht. reflexivity.
  - rewrite matchesExpectation_eq, Ht, Hsent. reflexivity.
  - rewrite matchesExpectation_eq. reflexivity.
  - rewrite matchesExpectation_ranges by assumption.
    cbn [isRangeSet] in *. destruct (lookup "oneOfRanges" props); try reflexivity.
    discriminate.
Qed.

Lemma matchesExpectation_not (status : Z) (props : list (string * jsval)) :
  truthy (lookup "not" props) = true ->
  matchesExpectation engine (Some status) (JObj props)
  = cnot (matchesExpectation engine (Some status) (lookup "not" props)).
Proof.
  intros Ht. rewrite matchesExpectation_eq.
  cbn [truthy negb orb strictEqStr typeof Get cbind].
  change ("object" =? "object")%string with true. cbn iota.
  rewrite Ht. reflexivity.
Qed.

Lemma matchesExpectation_falsy (status : Z) (R : jsval) :
  truthy R = false ->
  matchesExpectation engine (Some status) R
  = Normal ((200 <=? status) && (status <? 400)).
Proof. intros Ht. rewrite matchesExpectation_eq, Ht. reflexivity. Qed.

End MatcherFacts.

(** C3.  With an absent status code, the status of a network failure, the
    matcher returns false on every rule, negations at any depth included. *)
Theorem absent_status_never_matches (engine : Engine) (R : jsval) :
  matchesExpectation engine None R = Normal false.
Proof. apply matchesExpectation_absent. Qed.

(** C2, as stated, fails twice: on the absent status, where a rule and its
    negation both give false; and on a falsy rule, whose negation the
    [expect.not] test does not see. *)
Lemma negation_law_counterexample :
  matchesExpectation plain None (negate (JStr "2xx3xx"))
    <> cnot (matchesExpectation plain None (JStr "2xx3xx"))
  /\ matchesExpectation plain (Some 500) (negate JNull)
    <> cnot (matchesExpectation plain (Some 500) JNull).
Proof. split; vm_compute; discriminate. Qed.

(** C2, amended.  For every truthy rule [R] and every status code that is
    present, the matcher on [{ not: R }] comes to the negation of what it
    comes to on [R]: the opposite verdict when it returns one on [R], the
    same error when it throws on [R].  On the absent status it returns
    false on [{ not: R }] too. *)
Theorem negation_law (engine : Engine) (R : jsval) :
  truthy R = true ->
  (forall x : Z,
      matchesExpectation engine (Some x) (negate R)
      = cnot (matchesExpectation engine (Some x) R))
  /\ (forall (x : Z) (b : bool),
        matchesExpectation engine (Some x) R = Normal b ->
        matchesExpectation engine (Some x) (negate R) = Normal (negb b))
  /\ matchesExpectation engine None (negate R) = Normal false.
Proof.
  intros Ht.
  assert (Heq : forall x : Z,
             matchesExpectation engine (Some x) (negate R)
             = cnot (matchesExpectation engine (Some x) R)).
  { intros x. unfold negate. rewrite matchesExpectation_not.
    - cbn [lookup]. now rewrite String.eqb_refl.
    - cbn [lookup]. now rewrite String.eqb_refl. }
  split; [exact Heq|]. split; [|reflexivity].
  intros x b Hb. rewrite Heq, Hb. reflexivity.
Qed.

Lemma negation_law_witness :
  truthy (JObj [("anyOf", JArr [JNum 503; JNum 504])]) = true
  /\ matchesExpectation plain (Some 503)
       (negate (JObj [("anyOf", JArr [JNum 503; JNum 504])]))
     = cnot (matchesExpectation plain (Some 503)
               (JObj [("anyOf", JArr [JNum 503; JNum 504])])).
Proof.
  split; [reflexivity|].
  apply (negation_law plain (JObj [("anyOf", JArr [JNum 503; JNum 504])])).
  reflexivity.
Defined.

(** C8, as stated, fails on the falsy values that are not absent: the empty
    string, [false] and [0] are none of the recognized forms, and the
    [!expect] test hands them to the default rule. *)
Lemma malformed_rule_counterexample :
  ~ (recognized (JStr EmptyString) = false ->
     matchesExpectation plain (Some 200) (JStr EmptyString) = Normal false).
Proof. intros H. specialize (H eq_refl). vm_compute in H. discriminate. Qed.

(** C8, amended.  On a truthy rule value of no recognized form the matcher
    returns false, on every status, and so does not throw.  A [between]
    that is not an array of two elements is passed over, and an entry of
    [oneOfRanges] that is not an array of two elements counts as no match:
    the verdict is that of the remaining entries, tried in order.  A falsy
    rule value is taken for the default rule. *)
Theorem malformed_rule_never_matches (engine : Engine) (status : option Z) (R : jsval) :
  (truthy R = true -> recognized R = false ->
   matchesExpectation engine status R = Normal false)
  /\ (forall s props,
        status = Some s -> R = JObj props ->
        isNegation R = false -> isFixedSet R = false -> isSingleRange R = false ->
        matchesExpectation engine status R =
        match lookup "oneOfRanges" props with
        | JArr ranges => some_elems (inRange engine s) (filter isPair ranges)
        | _ => Normal false
        end)
  /\ (forall s, status = Some s -> truthy R = false ->
        matchesExpectation engine status R = Normal ((200 <=? s) && (s <? 400))).
Proof.
  split; [|split].
  - intros Ht Hr. destruct status as [s|]; [|reflexivity].
    apply unrecognized_false; assumption.
  - intros s props -> -> Hn Hf Hs.
    apply matchesExpectation_ranges; assumption.
  - intros s -> Ht. apply matchesExpectation_falsy; exact Ht.
Qed.

Lemma malformed_rule_never_matches_witness :
  truthy (JObj [("between", JArr [JNum 200])]) = true
  /\ recognized (JObj [("between", JArr [JNum 200])]) = false
  /\ matchesExpectation plain (Some 200) (JObj [("between", JArr [JNum 200])])
     = Normal false.
Proof.
  split; [reflexivity|]. split; [reflexivity|].
  apply (malformed_rule_never_matches plain (Some 200)
           (JObj [("between", JArr [JNum 200])])); reflexivity.
Defined.

(** C9, as stated, fails on an inner rule the matcher throws on: a
    [between] whose bound has an own [toString] entry is truthy, and the
    matcher returns no boolean on it nor on its negation. *)
Lemma negation_of_malformed_counterexample :
  truthy (JObj [("between", JArr [JObj [("toString", JNull)]; JNum 300])]) = true
  /\ ~ (exists b,
          matchesExpectation plain (Some 200)
            (JObj [("not",
                    JObj [("between", JArr [JObj [("toString", JNull)]; JNum 300])])])
          = Normal b).
Proof. split; [reflexivity|]. intros [b H]. vm_compute in H. discriminate. Qed.

(** C9, amended.  On a status code that is present, a rule object whose
    [not] is truthy comes to the negation of what the matcher comes to on
    that inner rule: the opposite boolean when it returns one there, the
    same error when it throws there.  When the inner rule is of no
    recognized form, that is true: the false of a malformed rule does not
    pass through a negation. *)
Theorem negation_of_malformed (engine : Engine) (s : Z) (props : list (string * jsval)) :
  truthy (lookup "not" props) = true ->
  matchesExpectation engine (Some s) (JObj props)
  = cnot (matchesExpectation engine (Some s) (lookup "not" props))
  /\ (forall b, matchesExpectation engine (Some s) (lookup "not" props) = Normal b ->
      matchesExpectation engine (Some s) (JObj props) = Normal (negb b))
  /\ (recognized (lookup "not" props) = false ->
      matchesExpectation engine (Some s) (JObj props) = Normal true).
Proof.
  intros Ht. pose proof (matchesExpectation_not engine s props Ht) as Heq.
  split; [exact Heq|]. split.
  - intros b Hb. rewrite Heq, Hb. reflexivity.
  - intros Hr. rewrite Heq, (unrecognized_false engine s _ Ht Hr). reflexivity.
Qed.

Lemma negation_of_malformed_witness :
  truthy (lookup "not" [("not", JStr "2xx")]) = true
  /\ recognized (lookup "not" [("not", JStr "2xx")]) = false
  /\ matchesExpectation plain (Some 500) (JObj [("not", JStr "2xx")]) = Normal true.
Proof.
  split; [reflexivity|]. split; [reflexivity|].
  apply (negation_of_malformed plain 500 [("not", JStr "2xx")]); reflexivity.
Defined.

(* ===================================================================== *)
(** * Properties of a single probe *)
(* ===================================================================== *)

Section ProbeFacts.
Variable world : World.
Variable monitor : Monitor.t.
Variable timeoutMs : Z.

Lemma classify_spec (startedAt : Z) (res : fetch_outcome) (c : Counters) :
  classify world monitor startedAt res c
  = (attemptOf (engine world) monitor res (clock world (clockReads c) - startedAt),
     {| requests := requests c; clockReads := S (clockReads c) |},
     []).
Proof.
  destruct res as [status statusText|name message]; cbn [classify attemptOf].
  - destruct (matchesExpectation (engine world) (Some status) (Monitor.expect monitor));
      reflexivity.
  - reflexivity.
Qed.

(** [checkOnce] in one equation: which requests go out, and which
    response the attempt is made of. *)
Lemma checkOnce_spec (c : Counters) :
  let url := Monitor.url monitor in
  let method := orString (Monitor.method monitor) "HEAD" in
  let first := fetchOutcome world (requests c) url method in
  let second := fetchOutcome world (S (requests c)) url "GET" in
  let duration := clock world (S (clockReads c)) - clock world (clockReads c) in
  checkOnce world monitor timeoutMs c =
  if fallsBack method first
  then (attemptOf (engine world) monitor second duration,
        {| requests := S (S (requests c)); clockReads := S (S (clockReads c)) |},
        [EvFetch url method; EvFetch url "GET"])
  else (attemptOf (engine world) monitor first duration,
        {| requests := S (requests c); clockReads := S (S (clockReads c)) |},
        [EvFetch url method]).
Proof.
  intros url method first second duration.
  unfold checkOnce, bind, dateNow, fetch. cbn [requests clockReads].
  fold url. fold method. fold first. unfold fallsBack.
  destruct first as [status statusText|name message] eqn:Hfirst.
  - rewrite (andb_comm (method =? "HEAD")%string).
    destruct (((status =? 405) || (status =? 501)) && (method =? "HEAD")%string).
    + fold second. rewrite classify_spec. reflexivity.
    + rewrite classify_spec. reflexivity.
  - rewrite andb_false_r. reflexivity.
Qed.

Lemma checkOnce_split (c : Counters) :
  checkOnce world monitor timeoutMs c
  = (attemptFrom world monitor timeoutMs c,
     next world monitor timeoutMs c,
     probeLog world monitor timeoutMs c).
Proof.
  unfold attemptFrom, next, probeLog.
  destruct (checkOnce world monitor timeoutMs c) as [[a c'] log]. reflexivity.
Qed.

Lemma probeLog_sleeps (c : Counters) :
  sleepsOf (probeLog world monitor timeoutMs c) = [].
Proof.
  unfold probeLog. rewrite checkOnce_spec.
  destruct (fallsBack _ _); reflexivity.
Qed.

End ProbeFacts.

(** C5.  A probe sends its first request with the configured method (HEAD
    when none is configured).  When that method is HEAD and the first
    response has status 405 or 501, it sends one more request, a GET to the
    same address, and makes the attempt of the outcome of that second
    request alone.  In every other case (another status, another method, a
    first request that fails) it sends nothing more and makes the attempt of
    the first outcome.  So a probe sends one request or two. *)
Theorem checkOnce_fallback
  (world : World) (monitor : Monitor.t) (timeoutMs : Z) (c : Counters) :
  let url := Monitor.url monitor in
  let method := orString (Monitor.method monitor) "HEAD" in
  let first := fetchOutcome world (requests c) url method in
  let second := fetchOutcome world (S (requests c)) url "GET" in
  let duration := clock world (S (clockReads c)) - clock world (clockReads c) in
  let '(attempt, c', log) := checkOnce world monitor timeoutMs c in
  (if fallsBack method first
   then fetchesOf log = [(url, "HEAD"); (url, "GET")]
        /\ attempt = attemptOf (engine world) monitor second duration
        /\ requests c' = (requests c + 2)%nat
   else fetchesOf log = [(url, method)]
        /\ attempt = attemptOf (engine world) monitor first duration
        /\ requests c' = (requests c + 1)%nat)
  /\ log = map (fun r => EvFetch (fst r) (snd r)) (fetchesOf log)
  /\ (List.length log <= 2)%nat.
Proof.
  intros url method first second duration.
  pose proof (checkOnce_spec world monitor timeoutMs c) as H.
  cbv zeta in H. fold url method first second duration in H. rewrite H.
  destruct (fallsBack method first) eqn:Hfb; cbn [fetchesOf flat_map app map fst snd
    List.length requests].
  - unfold fallsBack in Hfb. apply andb_true_iff in Hfb as [Hm _].
    apply String.eqb_eq in Hm. rewrite Hm.
    repeat split; try reflexivity; lia.
  - repeat split; try reflexivity; lia.
Qed.

(* ===================================================================== *)
(** * Properties of the retry loop *)
(* ===================================================================== *)

Lemma index_last {A} (front : list A) (last : A) :
  index (front ++ [last]) (Z.of_nat (List.length (front ++ [last])) - 1) = Some last.
Proof.
  unfold index. rewrite length_app. cbn [List.length].
  replace (Z.of_nat (List.length front + 1) - 1) with (Z.of_nat (List.length front)) by lia.
  destruct (Z.of_nat (List.length front) <? 0) eqn:Hneg; [apply Z.ltb_lt in Hneg; lia|].
  rewrite Nat2Z.id, nth_error_app2 by lia.
  rewrite Nat.sub_diag. reflexivity.
Qed.

Lemma summarizeAttempts_snoc (monitor : Monitor.t) (front : list Attempt.t) (last : Attempt.t) :
  summarizeAttempts monitor (front ++ [last]) =
  Normal {|
    Summary.url := Monitor.url monitor;
    Summary.ok := existsb Attempt.ok (front ++ [last]);
    Summary.expect := nullishVal (Monitor.expect monitor) (JStr "2xx3xx");
    Summary.method := nullish (Monitor.method monitor) "HEAD";
    Summary.attempts := Z.of_nat (List.length (front ++ [last]));
    Summary.lastStatus := Attempt.status last;
    Summary.lastError := Attempt.error last;
    Summary.attemptDetails := front ++ [last]
  |}.
Proof. unfold summarizeAttempts. rewrite index_last. reflexivity. Qed.

Lemma zrange_length (i : Z) (n : nat) : List.length (zrange i n) = n.
Proof. revert i. induction n as [|n IH]; intros i; cbn; [reflexivity|]. now rewrite IH. Qed.

Lemma sleepsOf_app (l1 l2 : list event) : sleepsOf (l1 ++ l2) = sleepsOf l1 ++ sleepsOf l2.
Proof. unfold sleepsOf. apply flat_map_app. Qed.

Section LoopFacts.
Variable world : World.
Variable monitor : Monitor.t.
Variable timeoutMs : Z.

Local Abbreviation attemptFrom_ := (attemptFrom world monitor timeoutMs).
Local Abbreviation next_ := (next world monitor timeoutMs).
Local Abbreviation probeLog_ := (probeLog world monitor timeoutMs).
Local Abbreviation countersAfter_ := (countersAfter world monitor timeoutMs).
Local Abbreviation probeAt_ := (probeAt world monitor timeoutMs).
Local Abbreviation stopAt_ := (stopAt world monitor timeoutMs).
Local Abbreviation traceFrom_ := (traceFrom world monitor timeoutMs).

Lemma probeAt_S (c : Counters) (j : nat) : probeAt_ c (S j) = probeAt_ (next_ c) j.
Proof. reflexivity. Qed.

Lemma probes_S (c : Counters) (k : nat) :
  map (probeAt_ c) (seq 0 (S k)) = attemptFrom_ c :: map (probeAt_ (next_ c)) (seq 0 k).
Proof.
  cbn [seq map]. f_equal. rewrite <- seq_shift, map_map. reflexivity.
Qed.

Lemma stopAt_le (n : nat) (c : Counters) : (stopAt_ n c <= n)%nat.
Proof.
  revert c. induction n as [|n IH]; intros c; cbn [stopAt]; [lia|].
  destruct (Attempt.ok (attemptFrom_ c)); [lia|]. specialize (IH (next_ c)). lia.
Qed.

Lemma stopAt_pos (n : nat) (c : Counters) : (1 <= n)%nat -> (1 <= stopAt_ n c)%nat.
Proof.
  destruct n as [|n]; [lia|]. intros _. cbn [stopAt].
  destruct (Attempt.ok (attemptFrom_ c)); lia.
Qed.

(** Every probe before the last one made has failed. *)
Lemma stopAt_failed_before (n : nat) (c : Counters) (j : nat) :
  (S j < stopAt_ n c)%nat -> Attempt.ok (probeAt_ c j) = false.
Proof.
  revert c j. induction n as [|n IH]; intros c j; cbn [stopAt]; [lia|].
  destruct (Attempt.ok (attemptFrom_ c)) eqn:Hok; [lia|].
  intros Hj. destruct j as [|j]; [exact Hok|].
  rewrite probeAt_S. apply IH. lia.
Qed.

(** The loop stops short of its last turn on a success only. *)
Lemma stopAt_early (n : nat) (c : Counters) :
  (stopAt_ n c < n)%nat -> Attempt.ok (probeAt_ c (stopAt_ n c - 1)) = true.
Proof.
  revert c. induction n as [|n IH]; intros c; cbn [stopAt]; [lia|].
  destruct (Attempt.ok (attemptFrom_ c)) eqn:Hok; [intros _; exact Hok|].
  intros Hlt. cbn [Nat.sub]. rewrite Nat.sub_0_r.
  assert (Hpos : (1 <= stopAt_ n (next_ c))%nat) by (apply stopAt_pos; lia).
  destruct (stopAt_ n (next_ c)) as [|k] eqn:Hk; [lia|].
  rewrite probeAt_S. specialize (IH (next_ c)). rewrite Hk in IH.
  cbn [Nat.sub] in IH. rewrite Nat.sub_0_r in IH. apply IH. lia.
Qed.

Lemma stopAt_first_success (n N : nat) (c : Counters) :
  (1 <= N <= n)%nat ->
  (forall j, (j < N - 1)%nat -> Attempt.ok (probeAt_ c j) = false) ->
  Attempt.ok (probeAt_ c (N - 1)) = true ->
  stopAt_ n c = N.
Proof.
  revert N c. induction n as [|n IH]; intros N c HN Hfail Hok; [lia|].
  cbn [stopAt].
  destruct N as [|[|N]]; [lia| |].
  - cbn in Hok. unfold probeAt in Hok. cbn in Hok. rewrite Hok. reflexivity.
  - pose proof (Hfail O ltac:(lia)) as H0.
    unfold probeAt in H0. cbn in H0. rewrite H0.
    f_equal. apply IH; [lia| |].
    + intros j Hj. rewrite <- probeAt_S. apply Hfail. lia.
    + rewrite <- probeAt_S. replace (S (S N - 1)) with (S (S N) - 1)%nat by lia.
      exact Hok.
Qed.

Lemma stopAt_all_fail (n : nat) (c : Counters) :
  (forall j, (j < n)%nat -> Attempt.ok (probeAt_ c j) = false) ->
  stopAt_ n c = n.
Proof.
  revert c. induction n as [|n IH]; intros c Hfail; [reflexivity|].
  cbn [stopAt].
  pose proof (Hfail O ltac:(lia)) as H0.
  unfold probeAt in H0. cbn in H0. rewrite H0.
  f_equal. apply IH. intros j Hj. rewrite <- probeAt_S. apply Hfail. lia.
Qed.

Lemma traceFrom_sleeps (i : Z) (k : nat) (c : Counters) :
  sleepsOf (traceFrom_ i k c) = map backoffMs (zrange i (k - 1)).
Proof.
  revert i c. induction k as [|k IH]; intros i c; [reflexivity|].
  cbn [traceFrom]. rewrite sleepsOf_app, probeLog_sleeps. cbn [app].
  destruct k as [|k]; [reflexivity|].
  change (sleepsOf (EvSleep (backoffMs i) :: traceFrom_ (i + 1) (S k) (next_ c)))
    with (backoffMs i :: sleepsOf (traceFrom_ (i + 1) (S k) (next_ c))).
  rewrite IH. cbn [Nat.sub]. rewrite Nat.sub_0_r. reflexivity.
Qed.

(** The loop from index [i] on, with [n] turns left: it makes the probes
    up to the first success, sleeps between them, and summarizes what it
    has. *)
Lemma attemptLoop_run (totalAttempts : Z) (n : nat) :
  forall (i : Z) (attempts : list Attempt.t) (c : Counters),
    n = Z.to_nat (totalAttempts + 1 - i) ->
    attemptLoop world monitor timeoutMs totalAttempts i attempts c
    = (summarizeAttempts monitor
         (attempts ++ map (probeAt_ c) (seq 0 (stopAt_ n c))),
       countersAfter_ (stopAt_ n c) c,
       traceFrom_ i (stopAt_ n c) c).
Proof.
  induction n as [|n IH]; intros i attempts c Hn.
  - rewrite attemptLoop_equation_1.
    destruct (Z_le_gt_dec i totalAttempts) as [Hle|Hgt]; [lia|].
    cbn. rewrite app_nil_r. reflexivity.
  - rewrite attemptLoop_equation_1.
    destruct (Z_le_gt_dec i totalAttempts) as [Hle|Hgt]; [|lia].
    cbn [attemptLoop_unfold_clause_1]. unfold bind at 1.
    rewrite checkOnce_split.
    cbn [stopAt].
    destruct (Attempt.ok (attemptFrom_ c)) eqn:Hok.
    + cbn. rewrite app_nil_r. reflexivity.
    + unfold bind at 1.
      assert (Hn' : n = Z.to_nat (totalAttempts + 1 - (i + 1))) by lia.
      pose proof (IH (i + 1) (attempts ++ [attemptFrom_ c]) (next_ c) Hn') as Hrec.
      rewrite probes_S. cbn [countersAfter].
      rewrite <- app_assoc in Hrec. cbn [app] in Hrec.
      destruct (i <? totalAttempts) eqn:Hlt.
      * apply Z.ltb_lt in Hlt.
        assert (Hpos : (1 <= stopAt_ n (next_ c))%nat) by (apply stopAt_pos; lia).
        cbn [sleep]. rewrite Hrec.
        destruct (stopAt_ n (next_ c)) as [|k] eqn:Hk; [lia|].
        cbn [app traceFrom]. reflexivity.
      * apply Z.ltb_ge in Hlt.
        destruct n as [|n']; [|lia].
        cbn [ret]. rewrite Hrec.
        cbn [stopAt app traceFrom]. reflexivity.
Qed.

End LoopFacts.

Lemma existsb_all_failed (front : list Attempt.t) :
  forallb (fun a => negb (Attempt.ok a)) front = true ->
  existsb Attempt.ok front = false.
Proof.
  induction front as [|a front IH]; cbn; [reflexivity|].
  intros H. apply andb_true_iff in H as [Ha Hf].
  apply negb_true_iff in Ha. rewrite Ha, (IH Hf). reflexivity.
Qed.

Section RetryFacts.
Variable world : World.
Variable monitor : Monitor.t.
Variable timeoutMs : Z.
Variable retries : Z.
Variable c : Counters.

Local Abbreviation allowed := (Z.to_nat (Z.max 1 (retries + 1))).
Local Abbreviation made := (stopAt world monitor timeoutMs allowed c).
Local Abbreviation probe := (probeAt world monitor timeoutMs c).

Lemma made_bounds : (1 <= made <= allowed)%nat.
Proof. split; [apply stopAt_pos; lia|apply stopAt_le]. Qed.

Lemma probes_snoc :
  map probe (seq 0 made) = map probe (seq 0 (made - 1)) ++ [probe (made - 1)%nat].
Proof.
  pose proof made_bounds as [Hpos _].
  destruct made as [|k]; [lia|].
  cbn [Nat.sub]. rewrite Nat.sub_0_r, seq_S, map_app. reflexivity.
Qed.

Lemma front_failed :
  forallb (fun a => negb (Attempt.ok a)) (map probe (seq 0 (made - 1))) = true.
Proof.
  apply forallb_forall. intros a Ha.
  apply in_map_iff in Ha as (j & <- & Hj). apply in_seq in Hj.
  apply negb_true_iff. apply (stopAt_failed_before world monitor timeoutMs allowed).
  lia.
Qed.

(** [checkWithRetries] returns the summary of the probes made, leaves
    the counters where the last of them left them, and logs the probes
    with the sleeps between them. *)
Lemma checkWithRetries_run :
  checkWithRetries world monitor timeoutMs retries c =
  (Normal {|
     Summary.url := Monitor.url monitor;
     Summary.ok := Attempt.ok (probe (made - 1)%nat);
     Summary.expect := nullishVal (Monitor.expect monitor) (JStr "2xx3xx");
     Summary.method := nullish (Monitor.method monitor) "HEAD";
     Summary.attempts := Z.of_nat made;
     Summary.lastStatus := Attempt.status (probe (made - 1)%nat);
     Summary.lastError := Attempt.error (probe (made - 1)%nat);
     Summary.attemptDetails := map probe (seq 0 made)
   |},
   countersAfter world monitor timeoutMs made c,
   traceFrom world monitor timeoutMs 1 made c).
Proof.
  unfold checkWithRetries. cbv zeta.
  rewrite (attemptLoop_run world monitor timeoutMs _ allowed) by lia.
  cbn [app]. f_equal. f_equal.
  rewrite probes_snoc at 1. rewrite summarizeAttempts_snoc, <- probes_snoc.
  rewrite length_map, length_seq. f_equal. f_equal.
  rewrite probes_snoc, existsb_app, (existsb_all_failed _ front_failed).
  cbn. apply orb_false_r.
Qed.

End RetryFacts.

(** C1.  [checkWithRetries] makes [N] probes, [1 <= N <= max(1, R + 1)],
    and returns without a throw: the counters are those after [N] probes,
    the summary records these [N] attempts, and its [ok] is true iff one
    of the recorded attempts succeeded.  When probes 1 to [n - 1] fail and
    probe [n] succeeds, [n <= R + 1], then [N = n] and [ok] is true; when
    all [max(1, R + 1)] probes fail, [N] is that number and [ok] is
    false. *)
Theorem checkWithRetries_attempts
  (world : World) (monitor : Monitor.t) (timeoutMs retries : Z) (c : Counters) :
  let allowed := Z.to_nat (Z.max 1 (retries + 1)) in
  let probe := probeAt world monitor timeoutMs c in
  exists (N : nat) (r : Summary.t) (log : list event),
    checkWithRetries world monitor timeoutMs retries c
    = (Normal r, countersAfter world monitor timeoutMs N c, log)
    /\ (1 <= N <= allowed)%nat
    /\ Summary.attemptDetails r = map probe (seq 0 N)
    /\ Summary.attempts r = Z.of_nat N
    /\ Summary.ok r = existsb Attempt.ok (Summary.attemptDetails r)
    /\ (forall n : nat,
          (1 <= n)%nat -> Z.of_nat n <= retries + 1 ->
          (forall j, (j < n - 1)%nat -> Attempt.ok (probe j) = false) ->
          Attempt.ok (probe (n - 1)%nat) = true ->
          N = n /\ Summary.ok r = true)
    /\ ((forall j, (j < allowed)%nat -> Attempt.ok (probe j) = false) ->
        N = allowed /\ Summary.ok r = false).
Proof.
  intros allowed probe.
  pose proof (made_bounds world monitor timeoutMs retries c) as Hb.
  pose proof (checkWithRetries_run world monitor timeoutMs retries c) as Hrun.
  fold allowed in Hb, Hrun. fold probe in Hrun.
  set (N := stopAt world monitor timeoutMs allowed c) in *.
  eexists N, _, _. split; [exact Hrun|]. cbn [Summary.attemptDetails Summary.attempts Summary.ok].
  split; [exact Hb|]. split; [reflexivity|]. split; [reflexivity|].
  split; [|split].
  - pose proof (probes_snoc world monitor timeoutMs retries c) as Hs.
    pose proof (front_failed world monitor timeoutMs retries c) as Hf.
    fold allowed in Hs, Hf. fold N in Hs, Hf. fold probe in Hs, Hf.
    rewrite Hs, existsb_app, (existsb_all_failed _ Hf). cbn.
    symmetry. apply orb_false_r.
  - intros n Hn1 Hn2 Hfail Hok.
    assert (HN : N = n).
    { apply stopAt_first_success; [subst allowed; lia|exact Hfail|exact Hok]. }
    split; [exact HN|]. rewrite HN. exact Hok.
  - intros Hfail.
    assert (HN : N = allowed) by (apply stopAt_all_fail; exact Hfail).
    split; [exact HN|]. rewrite HN. apply Hfail. lia.
Qed.

(** C10.  The summary [checkWithRetries] returns has a last attempt: its
    attempts are [front ++ [last]], every attempt of [front] has failed,
    the summary's [ok] is the [ok] of [last], and [lastStatus] and
    [lastError] are those of [last]. *)
Theorem checkWithRetries_result_invariant
  (world : World) (monitor : Monitor.t) (timeoutMs retries : Z) (c : Counters) :
  exists (r : Summary.t) (c' : Counters) (log : list event)
         (front : list Attempt.t) (last : Attempt.t),
    checkWithRetries world monitor timeoutMs retries c = (Normal r, c', log)
    /\ Summary.attemptDetails r <> []
    /\ Summary.attemptDetails r = front ++ [last]
    /\ forallb (fun a => negb (Attempt.ok a)) front = true
    /\ Summary.ok r = Attempt.ok last
    /\ Summary.lastStatus r = Attempt.status last
    /\ Summary.lastError r = Attempt.error last
    /\ Summary.attempts r = Z.of_nat (List.length (Summary.attemptDetails r)).
Proof.
  pose proof (checkWithRetries_run world monitor timeoutMs retries c) as Hrun.
  pose proof (probes_snoc world monitor timeoutMs retries c) as Hs.
  pose proof (front_failed world monitor timeoutMs retries c) as Hf.
  eexists _, _, _, _, _. split; [exact Hrun|].
  cbn [Summary.attemptDetails Summary.attempts Summary.ok Summary.lastStatus
       Summary.lastError].
  split; [rewrite Hs; intros H; destruct (app_cons_not_nil _ _ _ (eq_sym H))|].
  split; [exact Hs|]. split; [exact Hf|].
  repeat split. now rewrite length_map, length_seq.
Qed.


(* ===================================================================== *)
(** * Properties of [mapLimit] *)
(* ===================================================================== *)

Lemma read_nil {X} (idx : nat) : read (@nil (option X)) idx = None.
Proof. destruct idx; reflexivity. Qed.

Lemma read_array_set {X} (arr : list (option X)) (idx : nat) (v : X) (idx' : nat) :
  read (array_set arr idx v) idx' = if (idx' =? idx)%nat then Some v else read arr idx'.
Proof.
  revert arr idx'. induction idx as [|idx IH]; intros arr idx'.
  - destruct arr, idx'; try reflexivity. cbn. unfold read. cbn.
    destruct idx'; reflexivity.
  - destruct arr as [|x arr], idx' as [|idx']; try reflexivity.
    + cbn [array_set]. change (read (None :: array_set [] idx v) (S idx'))
        with (read (array_set [] idx v) idx').
      rewrite IH, read_nil. reflexivity.
    + cbn [array_set]. change (read (x :: array_set arr idx v) (S idx'))
        with (read (array_set arr idx v) idx').
      rewrite IH. reflexivity.
Qed.

Lemma length_array_set {X} (arr : list (option X)) (idx : nat) (v : X) :
  List.length (array_set arr idx v) = Nat.max (List.length arr) (S idx).
Proof.
  revert arr. induction idx as [|idx IH]; intros arr.
  - destruct arr; cbn; lia.
  - destruct arr; cbn [array_set List.length]; rewrite IH; cbn [List.length]; lia.
Qed.

Lemma nth_error_set_worker (ws : list worker) (w : nat) (st : worker) (w' : nat) :
  nth_error (set_worker ws w st) w'
  = if (w' =? w)%nat
    then match nth_error ws w with Some _ => Some st | None => None end
    else nth_error ws w'.
Proof.
  revert w w'. induction ws as [|x ws IH]; intros w w'.
  - cbn [set_worker]. destruct (w' =? w)%nat; [|reflexivity].
    destruct w, w'; reflexivity.
  - destruct w as [|w], w' as [|w']; cbn; try reflexivity. apply IH.
Qed.

Lemma pending_set_worker (ws : list worker) (w idx : nat) (st : worker) :
  nth_error ws w = Some (Awaiting idx) ->
  (pending (set_worker ws w st) + (if isFinished st then 1 else 0))%nat = pending ws.
Proof.
  revert w. induction ws as [|x ws IH]; intros w Hw.
  - destruct w; discriminate.
  - destruct w as [|w].
    + cbn in Hw. inversion Hw; subst x. unfold pending. cbn.
      destruct (isFinished st); cbn; lia.
    + cbn in Hw. specialize (IH w Hw). unfold pending in *. cbn.
      destruct (negb (isFinished x)); cbn; lia.
Qed.



Section MapLimitFacts.
Context {A B : Type}.
Variable undef : A.
Variable fn : A -> B.
Variable items : list A.

Local Abbreviation Inv_ := (Inv undef fn items).
Local Abbreviation resume_ := (resume undef fn items).
Local Abbreviation run_ := (run undef fn items).
Local Abbreviation launch_ := (launch (B := B) items).

Lemma spawn_spec (n i : nat) :
  (i + n <= List.length items)%nat ->
  spawn items n i = ((i + n)%nat, map Awaiting (seq i n)).
Proof.
  revert i. induction n as [|n IH]; intros i Hle; cbn [spawn seq map].
  - now rewrite Nat.add_0_r.
  - unfold loopHead. destruct (i <? List.length items)%nat eqn:Hlt;
      [|apply Nat.ltb_ge in Hlt; lia].
    rewrite IH by lia. f_equal. lia.
Qed.

Lemma launch_spec (limit : Z) :
  let n := Z.to_nat (Z.min limit (Z.of_nat (List.length items))) in
  launch_ limit
  = {| Pool.ret := []; Pool.i := n; Pool.workers := map Awaiting (seq 0 n) |}.
Proof.
  intros n. unfold launch. fold n. rewrite spawn_spec by lia. reflexivity.
Qed.

Lemma waiting_seq (n w idx : nat) :
  nth_error (map Awaiting (seq 0 n)) w = Some (Awaiting idx) -> idx = w /\ (w < n)%nat.
Proof.
  rewrite nth_error_map. destruct (nth_error (seq 0 n) w) as [j|] eqn:Hj; [|discriminate].
  intros [= <-].
  assert (Hw : (w < n)%nat).
  { rewrite <- (length_seq n 0). apply nth_error_Some. congruence. }
  rewrite nth_error_seq in Hj.
  destruct (w <? n)%nat eqn:E; [|apply Nat.ltb_ge in E; lia].
  inversion Hj. split; lia.
Qed.

Lemma pending_waiting (l : list nat) : pending (map Awaiting l) = List.length l.
Proof. unfold pending. induction l; cbn; [reflexivity|]. now rewrite IHl. Qed.

Lemma Inv_launch (limit : Z) : Inv_ O (launch_ limit).
Proof.
  rewrite launch_spec. cbv zeta.
  set (n := Z.to_nat (Z.min limit (Z.of_nat (List.length items)))).
  assert (Hn : (n <= List.length items)%nat) by lia.
  constructor; cbn [Pool.i Pool.ret Pool.workers].
  - exact Hn.
  - intros w idx H. apply waiting_seq in H. lia.
  - intros w1 w2 idx H1 H2. apply waiting_seq in H1, H2. lia.
  - intros idx Hlt Hnot. exfalso. apply (Hnot idx).
    rewrite nth_error_map, nth_error_seq.
    destruct (idx <? n)%nat eqn:E; [reflexivity|apply Nat.ltb_ge in E; lia].
  - cbn. lia.
  - intros w H. rewrite nth_error_map in H.
    destruct (nth_error (seq 0 n) w); discriminate.
  - rewrite pending_waiting, length_seq. lia.
Qed.

Lemma Inv_resume (k w : nat) (p p' : Pool.t B) :
  Inv_ k p -> resume_ w p = Some p' -> Inv_ (S k) p'.
Proof.
  intros [Hc Hcl Hd Hs Hl Hlf Hn] Hres. unfold resume in Hres.
  destruct (nth_error (Pool.workers p) w) as [[idx|]|] eqn:Hw; try discriminate.
  pose proof (Hcl w idx Hw) as Hidx.
  pose proof (pending_set_worker (Pool.workers p) w idx) as Hp.
  unfold loopHead in Hres.
  destruct (Pool.i p <? List.length items)%nat eqn:Hlt;
    inversion Hres; subst p'; clear Hres;
    constructor; cbn [Pool.i Pool.ret Pool.workers].
  - apply Nat.ltb_lt in Hlt. lia.
  - intros w' idx'. rewrite nth_error_set_worker, Hw.
    destruct (w' =? w)%nat; [intros [= <-]; lia|].
    intros H. apply Hcl in H. lia.
  - intros w1 w2 idx'. rewrite !nth_error_set_worker, Hw.
    destruct (w1 =? w)%nat eqn:E1, (w2 =? w)%nat eqn:E2; intros H1 H2.
    + apply Nat.eqb_eq in E1, E2. lia.
    + inversion H1; subst idx'. apply Hcl in H2. lia.
    + inversion H2; subst idx'. apply Hcl in H1. lia.
    + exact (Hd _ _ _ H1 H2).
  - intros idx' Hlt' Hnot. rewrite read_array_set.
    destruct (idx' =? idx)%nat eqn:E; [apply Nat.eqb_eq in E; now subst|].
    apply Nat.eqb_neq in E.
    assert (Hne : idx' <> Pool.i p).
    { intros ->. apply (Hnot w). rewrite nth_error_set_worker, Nat.eqb_refl, Hw.
      reflexivity. }
    apply Hs; [lia|]. intros w' Hw'.
    destruct (Nat.eq_dec w' w) as [->|Hww]; [congruence|].
    apply (Hnot w'). rewrite nth_error_set_worker.
    apply Nat.eqb_neq in Hww. rewrite Hww. exact Hw'.
  - rewrite length_array_set. lia.
  - intros w'. rewrite nth_error_set_worker, Hw.
    destruct (w' =? w)%nat; [discriminate|].
    intros H. apply Hlf in H. apply Nat.ltb_lt in Hlt. lia.
  - specialize (Hp (Awaiting (Pool.i p)) Hw). cbn in Hp. lia.
  - exact Hc.
  - intros w' idx'. rewrite nth_error_set_worker, Hw.
    destruct (w' =? w)%nat; [discriminate|]. apply Hcl.
  - intros w1 w2 idx'. rewrite !nth_error_set_worker, Hw.
    destruct (w1 =? w)%nat, (w2 =? w)%nat; try discriminate. apply Hd.
  - intros idx' Hlt' Hnot. rewrite read_array_set.
    destruct (idx' =? idx)%nat eqn:E; [apply Nat.eqb_eq in E; now subst|].
    apply Nat.eqb_neq in E.
    apply Hs; [lia|]. intros w' Hw'.
    destruct (Nat.eq_dec w' w) as [->|Hww]; [congruence|].
    apply (Hnot w'). rewrite nth_error_set_worker.
    apply Nat.eqb_neq in Hww. rewrite Hww. exact Hw'.
  - rewrite length_array_set. lia.
  - intros _ _. apply Nat.ltb_ge in Hlt. lia.
  - specialize (Hp Finished Hw). cbn in Hp. lia.
Qed.

Lemma Inv_run (schedule : list nat) :
  forall k p p', Inv_ k p -> run_ schedule p = Some p' ->
                 Inv_ (k + List.length schedule) p'.
Proof.
  induction schedule as [|w rest IH]; intros k p p' Hinv Hrun; cbn in Hrun.
  - inversion Hrun; subst. cbn. now rewrite Nat.add_0_r.
  - destruct (resume_ w p) as [p1|] eqn:Hres; [|discriminate].
    cbn [List.length]. rewrite Nat.add_succ_r.
    apply (IH (S k) p1 p'); [|exact Hrun].
    exact (Inv_resume k w p p1 Hinv Hres).
Qed.



End MapLimitFacts.

Lemma length_set_worker (ws : list worker) (w : nat) (st : worker) :
  List.length (set_worker ws w st) = List.length ws.
Proof.
  revert w. induction ws as [|x ws IH]; intros w; [reflexivity|].
  destruct w; cbn; [reflexivity|]. now rewrite IH.
Qed.

Lemma run_workers {A B} (undef : A) (fn : A -> B) (items : list A) (schedule : list nat) :
  forall p p', run undef fn items schedule p = Some p' ->
               List.length (Pool.workers p') = List.length (Pool.workers p).
Proof.
  induction schedule as [|w rest IH]; intros p p' Hrun; cbn in Hrun.
  - now inversion Hrun.
  - destruct (resume undef fn items w p) as [p1|] eqn:Hres; [|discriminate].
    rewrite (IH _ _ Hrun). unfold resume in Hres.
    destruct (nth_error (Pool.workers p) w) as [[idx|]|]; try discriminate.
    destruct (loopHead items (Pool.i p)). inversion Hres. cbn.
    apply length_set_worker.
Qed.




(* ===================================================================== *)
(** * Properties of the report *)
(* ===================================================================== *)

(** C7.  In the body of every response the handler builds from the
    results: [down] is the results whose [ok] is false, in their order;
    [results] is the results; [totals.checked] is their number,
    [totals.down] the number of [down], [totals.up] the difference; and
    [ok] is true iff [totals.down] is 0.  From no results the body has
    totals 0, 0, 0, [ok] true and empty [down] and [results]. *)
Theorem report_totals (env : Env.t) (send : send_outcome) (results : list Summary.t) :
  let body := snd (report env send results) in
  Body.down body = filter (fun r => negb (Summary.ok r)) results
  /\ Body.results body = results
  /\ Totals.checked (Body.totals body) = Z.of_nat (List.length results)
  /\ Totals.down (Body.totals body) = Z.of_nat (List.length (Body.down body))
  /\ Totals.up (Body.totals body)
     = Totals.checked (Body.totals body) - Totals.down (Body.totals body)
  /\ Body.ok body = (Totals.down (Body.totals body) =? 0)
  /\ report env send []
     = (200, {| Body.ok := true; Body.error := None; Body.details := None;
                Body.emailSent := Some false; Body.emailId := None;
                Body.totals := {| Totals.checked := 0; Totals.down := 0;
                                  Totals.up := 0 |};
                Body.down := []; Body.results := [] |}).
Proof.
  cbv zeta. unfold report.
  set (down := filter (fun r => negb (Summary.ok r)) results).
  destruct (Z.of_nat (List.length down) >? 0) eqn:Hpos.
  - assert (Hz : (Z.of_nat (List.length down) =? 0) = false).
    { apply Z.eqb_neq. apply Z.gtb_lt in Hpos. lia. }
    destruct (unset (Env.RESEND_API_KEY env) || unset (Env.ALERT_EMAIL_TO env)
              || unset (Env.ALERT_EMAIL_FROM env)); [|destruct send];
      cbn [snd Body.down Body.results Body.totals Body.ok Totals.checked Totals.down
           Totals.up]; rewrite ?Hz; repeat split; reflexivity.
  - cbn [snd Body.down Body.results Body.totals Body.ok Totals.checked Totals.down
         Totals.up]. repeat split; reflexivity.
Qed.

(* ===================================================================== *)
(** * The theorems at work *)
(* ===================================================================== *)

(** Two failures, then a success on the third and last allowed probe. *)
Lemma checkWithRetries_attempts_witness :
  exists (N : nat) (r : Summary.t) (log : list event),
    checkWithRetries recovering github 8000 2 start
    = (Normal r, countersAfter recovering github 8000 N start, log)
    /\ N = 3%nat /\ Summary.ok r = true.
Proof.
  destruct (checkWithRetries_attempts recovering github 8000 2 start)
    as (N & r & log & Hrun & _ & _ & _ & _ & Hfirst & _).
  exists N, r, log. split; [exact Hrun|].
  apply (Hfirst 3%nat).
  - lia.
  - lia.
  - intros j Hj. destruct j as [|[|j]]; [reflexivity|reflexivity|lia].
  - reflexivity.
Defined.


Example default_rule_accepts_2xx_3xx :
  matchesExpectation plain (Some 200) (JStr "2xx3xx") = Normal true
  /\ matchesExpectation plain (Some 399) JUndef = Normal true
  /\ matchesExpectation plain (Some 400) (JStr "2xx3xx") = Normal false.
Proof. repeat split. Qed.

Example not_anyOf_503 :
  matchesExpectation plain (Some 503) (negate (JObj [("anyOf", JArr [JNum 503])]))
  = Normal false.
Proof. reflexivity. Qed.

Example oneOfRanges_skips_bad_entries :
  matchesExpectation plain (Some 301)
    (JObj [("oneOfRanges",
            JArr [JArr [JNum 200; JNum 299]; JNum 4; JArr [JNum 301; JNum 302]])])
  = Normal true.
Proof. reflexivity. Qed.

(** A HEAD probe answered 405 goes on to one GET; answered 200 it does not. *)
Example head_405_falls_back :
  let world := {| fetchOutcome := fun n _ method =>
                    if (method =? "HEAD")%string
                    then Responded 405 "Method Not Allowed" else Responded 200 "OK";
                  clock := fun n => Z.of_nat n;
                  engine := plain |} in
  let '(attempt, _, log) := checkOnce world github 8000 start in
  log = [EvFetch (Monitor.url github) "HEAD"; EvFetch (Monitor.url github) "GET"]
  /\ Attempt.ok attempt = true /\ Attempt.status attempt = Some 200.
Proof. repeat split. Qed.

Example head_200_no_fallback :
  let '(attempt, _, log) := checkOnce recovering github 8000
                              {| requests := 2; clockReads := 0 |} in
  log = [EvFetch (Monitor.url github) "HEAD"] /\ Attempt.status attempt = Some 200.
Proof. repeat split. Qed.

(** Targets A (always 200) and B (always 500), no retries. *)
Example report_one_down :
  let A := {| Summary.url := "A"; Summary.ok := true; Summary.expect := JStr "2xx3xx";
              Summary.method := "HEAD"; Summary.attempts := 1;
              Summary.lastStatus := Some 200; Summary.lastError := None;
              Summary.attemptDetails := [] |} in
  let B := {| Summary.url := "B"; Summary.ok := false; Summary.expect := JStr "2xx3xx";
              Summary.method := "HEAD"; Summary.attempts := 1;
              Summary.lastStatus := Some 500; Summary.lastError := None;
              Summary.attemptDetails := [] |} in
  let body := snd (report {| Env.RESEND_API_KEY := Some "key";
                             Env.ALERT_EMAIL_TO := Some "to@example.com";
                             Env.ALERT_EMAIL_FROM := Some "from@example.com" |}
                     (Sent (Some "id")) [A; B]) in
  Body.totals body = {| Totals.checked := 2; Totals.down := 1; Totals.up := 1 |}
  /\ Body.down body = [B] /\ Body.ok body = false.
Proof. repeat split. Qed.

(* ===================================================================== *)
(** * Further properties of the matcher *)
(* ===================================================================== *)

Lemma cnot_involutive (c : completion bool) : cnot (cnot c) = c.
Proof.
  destruct c as [b|name message]; cbn; [now rewrite negb_involutive|reflexivity].
Qed.

Lemma negate_iter_truthy (R : jsval) (n : nat) :
  truthy R = true -> truthy (Nat.iter n negate R) = true.
Proof. intros Ht. destruct n; [exact Ht|reflexivity]. Qed.

Lemma matchesExpectation_negate (engine : Engine) (x : Z) (R : jsval) :
  truthy R = true ->
  matchesExpectation engine (Some x) (negate R)
  = cnot (matchesExpectation engine (Some x) R).
Proof.
  intros Ht. unfold negate. rewrite matchesExpectation_not.
  - cbn [lookup]. now rewrite String.eqb_refl.
  - cbn [lookup]. now rewrite String.eqb_refl.
Qed.

(** X1.  Negations stack by parity: on a status that is present, a truthy
    rule wrapped in [n] negations is judged as the rule itself when [n] is
    even, and as its opposite when [n] is odd.  Two negations cancel. *)
Theorem negation_parity (engine : Engine) (x : Z) (R : jsval) (n : nat) :
  truthy R = true ->
  matchesExpectation engine (Some x) (Nat.iter n negate R)
  = if Nat.even n then matchesExpectation engine (Some x) R
    else cnot (matchesExpectation engine (Some x) R).
Proof.
  intros Ht. induction n as [|n IH]; [reflexivity|].
  cbn [Nat.iter nat_rect].
  change (nat_rect (fun _ => jsval) R (fun _ => negate) n) with (Nat.iter n negate R).
  rewrite matchesExpectation_negate by (apply negate_iter_truthy; exact Ht).
  rewrite IH, Nat.even_succ, <- Nat.negb_even.
  destruct (Nat.even n); cbn [negb]; [reflexivity|apply cnot_involutive].
Qed.

Lemma negation_parity_witness :
  truthy (JObj [("between", JArr [JNum 200; JNum 299])]) = true
  /\ matchesExpectation plain (Some 204)
       (negate (negate (JObj [("between", JArr [JNum 200; JNum 299])])))
     = matchesExpectation plain (Some 204)
         (JObj [("between", JArr [JNum 200; JNum 299])]).
Proof.
  split; [reflexivity|].
  apply (negation_parity plain 204 (JObj [("between", JArr [JNum 200; JNum 299])]) 2).
  reflexivity.
Defined.

(** X2.  A rule object with a truthy [not] is judged by that [not] alone:
    whatever [anyOf], [between] or [oneOfRanges] stand beside it, two
    objects with the same [not] get the same verdict. *)
Theorem not_takes_precedence (engine : Engine) (s : Z)
  (props props' : list (string * jsval)) :
  truthy (lookup "not" props) = true ->
  lookup "not" props' = lookup "not" props ->
  matchesExpectation engine (Some s) (JObj props')
  = matchesExpectation engine (Some s) (JObj props).
Proof.
  intros Ht Heq.
  rewrite (matchesExpectation_not engine s props Ht).
  rewrite (matchesExpectation_not engine s props') by (rewrite Heq; exact Ht).
  now rewrite Heq.
Qed.

Lemma not_takes_precedence_witness :
  truthy (lookup "not" [("not", JObj [("anyOf", JArr [JNum 503])])]) = true
  /\ matchesExpectation plain (Some 200)
       (JObj [("anyOf", JArr [JNum 404]); ("not", JObj [("anyOf", JArr [JNum 503])])])
     = matchesExpectation plain (Some 200)
         (JObj [("not", JObj [("anyOf", JArr [JNum 503])])]).
Proof.
  split; [reflexivity|].
  apply (not_takes_precedence plain 200 [("not", JObj [("anyOf", JArr [JNum 503])])]);
    reflexivity.
Defined.

Lemma strictEqNum_true (v : jsval) (n : Z) : strictEqNum v n = true <-> v = JNum n.
Proof.
  destruct v; cbn; try (split; [discriminate|intros H; discriminate]).
  rewrite Z.eqb_eq. split; [congruence|intros [= ->]; reflexivity].
Qed.

(** X3.  A rule object without a truthy [not] whose [anyOf] is an array
    accepts a status exactly when the array holds that number, with no
    conversion (the string of the number is not the number), and whatever
    [between] or [oneOfRanges] stand beside it. *)
Theorem anyOf_membership (engine : Engine) (s : Z) (props : list (string * jsval))
  (elems : list jsval) :
  truthy (lookup "not" props) = false ->
  lookup "anyOf" props = JArr elems ->
  matchesExpectation engine (Some s) (JObj props)
  = Normal (existsb (fun v => strictEqNum v s) elems)
  /\ (matchesExpectation engine (Some s) (JObj props) = Normal true
      <-> In (JNum s) elems).
Proof.
  intros Hn Ha.
  assert (Heq : matchesExpectation engine (Some s) (JObj props)
                = Normal (existsb (fun v => strictEqNum v s) elems)).
  { rewrite matchesExpectation_eq.
    cbn [truthy negb orb strictEqStr typeof Get cbind].
    change ("object" =? "object")%string with true. cbn iota.
    rewrite Hn, Ha. reflexivity. }
  split; [exact Heq|]. rewrite Heq. split.
  - intros [= H]. apply existsb_exists in H as (v & Hin & Hv).
    apply strictEqNum_true in Hv. now subst v.
  - intros Hin. f_equal. apply existsb_exists. exists (JNum s).
    split; [exact Hin|]. now apply strictEqNum_true.
Qed.

Lemma anyOf_membership_witness :
  truthy (lookup "not" [("anyOf", JArr [JNum 200; JStr "204"])]) = false
  /\ lookup "anyOf" [("anyOf", JArr [JNum 200; JStr "204"])] = JArr [JNum 200; JStr "204"]
  /\ matchesExpectation plain (Some 204) (JObj [("anyOf", JArr [JNum 200; JStr "204"])])
     = Normal false.
Proof.
  split; [reflexivity|]. split; [reflexivity|].
  exact (proj1 (anyOf_membership plain 204 [("anyOf", JArr [JNum 200; JStr "204"])]
                  [JNum 200; JStr "204"] eq_refl eq_refl)).
Defined.

(** X4.  A rule object without a truthy [not] and without an array [anyOf]
    whose [between] is a pair of numbers accepts the statuses from the
    first to the second, both ends included, whatever [oneOfRanges] stands
    beside it; a pair in the wrong order accepts nothing. *)
Theorem between_inclusive (engine : Engine) (s lo hi : Z)
  (props : list (string * jsval)) :
  truthy (lookup "not" props) = false ->
  isArray (lookup "anyOf" props) = false ->
  lookup "between" props = JArr [JNum lo; JNum hi] ->
  matchesExpectation engine (Some s) (JObj props) = Normal ((lo <=? s) && (s <=? hi))
  /\ (matchesExpectation engine (Some s) (JObj props) = Normal true <-> lo <= s <= hi)
  /\ (hi < lo -> matchesExpectation engine (Some s) (JObj props) = Normal false).
Proof.
  intros Hn Ha Hb.
  assert (Heq : matchesExpectation engine (Some s) (JObj props)
                = Normal ((lo <=? s) && (s <=? hi))).
  { rewrite matchesExpectation_ranges_or_between by assumption.
    rewrite Hb. cbn [isPair]. apply inRange_numbers. }
  split; [exact Heq|]. rewrite Heq. split; [split|].
  - intros [= H]. apply andb_true_iff in H as [H1 H2].
    apply Z.leb_le in H1, H2. lia.
  - intros [H1 H2]. f_equal. apply andb_true_iff. split; apply Z.leb_le; lia.
  - intros Hlt. f_equal. apply andb_false_iff.
    destruct (Z.leb_spec lo s); [right; apply Z.leb_gt; lia|now left].
Qed.

Lemma between_inclusive_witness :
  truthy (lookup "not" [("between", JArr [JNum 200; JNum 399])]) = false
  /\ isArray (lookup "anyOf" [("between", JArr [JNum 200; JNum 399])]) = false
  /\ lookup "between" [("between", JArr [JNum 200; JNum 399])]
     = JArr [JNum 200; JNum 399]
  /\ matchesExpectation plain (Some 399) (JObj [("between", JArr [JNum 200; JNum 399])])
     = Normal ((200 <=? 399) && (399 <=? 399)).
Proof.
  split; [reflexivity|]. split; [reflexivity|]. split; [reflexivity|].
  exact (proj1 (between_inclusive plain 399 200 399
                  [("between", JArr [JNum 200; JNum 399])]
                  eq_refl eq_refl eq_refl)).
Defined.

(** The single rule [{ between: r }] is the callback of [some] on [r]. *)
Lemma single_between (engine : Engine) (s : Z) (r : jsval) :
  matchesExpectation engine (Some s) (JObj [("between", r)]) = rangeEntry engine s r.
Proof.
  rewrite matchesExpectation_ranges_or_between by reflexivity.
  cbn [lookup]. rewrite String.eqb_refl.
  change ("oneOfRanges" =? "between")%string with false. cbn iota.
  rewrite rangeEntry_eq. destruct (isPair r); reflexivity.
Qed.

(** X5.  [oneOfRanges] tries its entries in order as [between] rules:
    [{ oneOfRanges: ranges }] comes to what [some] comes to over
    [{ between: r }] for the entries [r] of [ranges], which accepts at the
    first entry that accepts, throws at the first that throws, and
    rejects when all reject. *)
Theorem oneOfRanges_any_between (engine : Engine) (s : Z) (ranges : list jsval) :
  matchesExpectation engine (Some s) (JObj [("oneOfRanges", JArr ranges)])
  = some_elems
      (fun r => matchesExpectation engine (Some s) (JObj [("between", r)])) ranges.
Proof.
  rewrite matchesExpectation_ranges by reflexivity.
  cbn [lookup]. rewrite String.eqb_refl.
  rewrite <- some_elems_pairs. apply some_elems_ext.
  intros r. symmetry. apply single_between.
Qed.

(* ===================================================================== *)
(** * Further properties of a probe and of a run *)
(* ===================================================================== *)

Lemma attemptOf_shape (engine : Engine) (monitor : Monitor.t) (res : fetch_outcome)
  (d : Z) :
  let a := attemptOf engine monitor res d in
  (Attempt.status a = None <-> Attempt.error a <> None)
  /\ (Attempt.statusText a = None <-> Attempt.status a = None)
  /\ (forall s, Attempt.status a = Some s ->
        matchesExpectation engine (Some s) (Monitor.expect monitor)
        = Normal (Attempt.ok a))
  /\ (Attempt.status a = None -> Attempt.ok a = false).
Proof.
  destruct res as [status statusText|name message]; cbn [attemptOf].
  - destruct (matchesExpectation engine (Some status) (Monitor.expect monitor))
      as [b|name message] eqn:Hm;
      cbn [failedAttempt Attempt.status Attempt.error Attempt.statusText Attempt.ok].
    + repeat split; try discriminate; try congruence.
    + repeat split; try discriminate; try congruence.
  - cbn [failedAttempt Attempt.status Attempt.error Attempt.statusText Attempt.ok].
    repeat split; try discriminate; try congruence.
Qed.

(** The response or rejection the attempt of a probe is made of. *)
Lemma attemptFrom_decisive
  (world : World) (monitor : Monitor.t) (timeoutMs : Z) (c : Counters) :
  let url := Monitor.url monitor in
  let method := orString (Monitor.method monitor) "HEAD" in
  let first := fetchOutcome world (requests c) url method in
  let second := fetchOutcome world (S (requests c)) url "GET" in
  fst (fst (checkOnce world monitor timeoutMs c))
  = attemptOf (engine world) monitor (if fallsBack method first then second else first)
      (clock world (S (clockReads c)) - clock world (clockReads c)).
Proof.
  intros url method first second.
  pose proof (checkOnce_spec world monitor timeoutMs c) as H. cbv zeta in H.
  fold url method first second in H. rewrite H.
  destruct (fallsBack method first); reflexivity.
Qed.

(** X6.  The attempt of a probe has a status or an error, never both and
    never neither; it has a status text exactly when it has a status; when
    it has a status, its [ok] is the verdict of the matcher on that status
    (so a response the rule rejects keeps its real status, with [ok]
    false); without a status it is not ok. *)
Theorem attempt_shape
  (world : World) (monitor : Monitor.t) (timeoutMs : Z) (c : Counters) :
  let a := fst (fst (checkOnce world monitor timeoutMs c)) in
  (Attempt.status a = None <-> Attempt.error a <> None)
  /\ (Attempt.statusText a = None <-> Attempt.status a = None)
  /\ (forall s, Attempt.status a = Some s ->
        matchesExpectation (engine world) (Some s) (Monitor.expect monitor)
        = Normal (Attempt.ok a))
  /\ (Attempt.status a = None -> Attempt.ok a = false).
Proof.
  cbv zeta. pose proof (attemptFrom_decisive world monitor timeoutMs c) as H.
  cbv zeta in H. rewrite H. apply attemptOf_shape.
Qed.

(** X7.  When the request that decides a probe (the first one, or the GET
    of the fallback) is rejected, the attempt is not ok and has no status;
    its error is ["timeout"] when the rejection is an [AbortError], and the
    message of the error otherwise, when it has one. *)
Theorem rejection_recorded
  (world : World) (monitor : Monitor.t) (timeoutMs : Z) (c : Counters)
  (name message : string) :
  let url := Monitor.url monitor in
  let method := orString (Monitor.method monitor) "HEAD" in
  let first := fetchOutcome world (requests c) url method in
  let second := fetchOutcome world (S (requests c)) url "GET" in
  let a := fst (fst (checkOnce world monitor timeoutMs c)) in
  (if fallsBack method first then second else first) = Rejected name message ->
  Attempt.ok a = false
  /\ Attempt.status a = None
  /\ Attempt.statusText a = None
  /\ (name = "AbortError" -> Attempt.error a = Some "timeout")
  /\ (name <> "AbortError" -> message <> EmptyString -> Attempt.error a = Some message).
Proof.
  intros url method first second a Hdec. subst a.
  pose proof (attemptFrom_decisive world monitor timeoutMs c) as H. cbv zeta in H.
  fold url method first second in H. rewrite H, Hdec. cbn.
  repeat split.
  - intros ->. reflexivity.
  - intros Hn Hm. apply String.eqb_neq in Hn, Hm. rewrite Hn, Hm. reflexivity.
Qed.

Lemma rejection_recorded_witness :
  (if fallsBack "HEAD"
        (fetchOutcome unreachable 0 (Monitor.url github) "HEAD")
   then fetchOutcome unreachable 1 (Monitor.url github) "GET"
   else fetchOutcome unreachable 0 (Monitor.url github) "HEAD")
  = Rejected "TypeError" "fetch failed"
  /\ Attempt.error (fst (fst (checkOnce unreachable github 8000 start)))
     = Some "fetch failed".
Proof.
  split; [reflexivity|].
  apply (rejection_recorded unreachable github 8000 start "TypeError" "fetch failed");
    [reflexivity|discriminate|discriminate].
Defined.

Lemma fetchesOf_app (l1 l2 : list event) :
  fetchesOf (l1 ++ l2) = fetchesOf l1 ++ fetchesOf l2.
Proof. unfold fetchesOf. apply flat_map_app. Qed.

Section RequestFacts.
Variable world : World.
Variable monitor : Monitor.t.
Variable timeoutMs : Z.

Local Abbreviation ownRequest_ := (ownRequest monitor).

Lemma probeLog_requests (c : Counters) :
  Forall ownRequest_ (fetchesOf (probeLog world monitor timeoutMs c))
  /\ (1 <= List.length (fetchesOf (probeLog world monitor timeoutMs c)) <= 2)%nat
  /\ requests (next world monitor timeoutMs c)
     = (requests c + List.length (fetchesOf (probeLog world monitor timeoutMs c)))%nat.
Proof.
  unfold probeLog, next. rewrite checkOnce_spec.
  destruct (fallsBack _ _) eqn:Hfb; cbn.
  - unfold fallsBack in Hfb. apply andb_true_iff in Hfb as [Hm _].
    apply String.eqb_eq in Hm.
    split; [|lia].
    constructor; [split; [reflexivity|left; reflexivity]|].
    constructor; [split; [reflexivity|right; split; [exact Hm|reflexivity]]|].
    constructor.
  - split; [|lia].
    constructor; [split; [reflexivity|left; reflexivity]|]. constructor.
Qed.

Lemma traceFrom_requests (k : nat) :
  forall (i : Z) (c : Counters),
    Forall ownRequest_ (fetchesOf (traceFrom world monitor timeoutMs i k c))
    /\ (k <= List.length (fetchesOf (traceFrom world monitor timeoutMs i k c)) <= 2 * k)%nat
    /\ requests (countersAfter world monitor timeoutMs k c)
       = (requests c
          + List.length (fetchesOf (traceFrom world monitor timeoutMs i k c)))%nat.
Proof.
  induction k as [|k IH]; intros i c.
  - cbn. repeat split; try lia. constructor.
  - cbn [traceFrom countersAfter].
    destruct (probeLog_requests c) as (Hf & Hl & Hr).
    destruct (IH (i + 1) (next world monitor timeoutMs c)) as (Hf' & Hl' & Hr').
    rewrite fetchesOf_app, length_app.
    destruct k as [|k].
    + cbn in *. rewrite app_nil_r. repeat split; try lia. exact Hf.
    + change (fetchesOf (EvSleep (backoffMs i)
                           :: traceFrom world monitor timeoutMs (i + 1) (S k)
                                (next world monitor timeoutMs c)))
        with (fetchesOf (traceFrom world monitor timeoutMs (i + 1) (S k)
                           (next world monitor timeoutMs c))).
      repeat split; try lia. apply Forall_app. split; assumption.
Qed.

End RequestFacts.

(** X8.  Every request of a run of [checkWithRetries] goes to the address
    of the monitor, with its method or, after a HEAD, with GET; a run sends
    at least one request and at most two per allowed attempt; and the
    request counter moves by the number of requests logged. *)
Theorem run_requests
  (world : World) (monitor : Monitor.t) (timeoutMs retries : Z) (c : Counters) :
  let '(_, c', log) := checkWithRetries world monitor timeoutMs retries c in
  Forall (ownRequest monitor) (fetchesOf log)
  /\ (1 <= List.length (fetchesOf log) <= 2 * Z.to_nat (Z.max 1 (retries + 1)))%nat
  /\ requests c' = (requests c + List.length (fetchesOf log))%nat.
Proof.
  rewrite checkWithRetries_run.
  pose proof (made_bounds world monitor timeoutMs retries c) as Hb.
  destruct (traceFrom_requests world monitor timeoutMs
              (stopAt world monitor timeoutMs (Z.to_nat (Z.max 1 (retries + 1))) c) 1 c)
    as (Hf & Hl & Hr).
  repeat split; try assumption; lia.
Qed.

(* ===================================================================== *)
(** * Further properties of the retry loop *)
(* ===================================================================== *)

Lemma pow2_pos (e : Z) : 0 <= e -> 1 <= 2 ^ e.
Proof. intros He. pose proof (Z.pow_pos_nonneg 2 e ltac:(lia) He). lia. Qed.

(** X9.  From index 1 on, the backoff starts at 250 ms, never decreases
    from one index to the next, never exceeds 2000 ms, and is 2000 ms from
    index 4 on. *)
Theorem backoffMs_bounds (i j : Z) :
  1 <= i -> i <= j ->
  backoffMs 1 = 250
  /\ 250 <= backoffMs i
  /\ backoffMs i <= backoffMs j
  /\ backoffMs j <= 2000
  /\ (4 <= i -> backoffMs i = 2000).
Proof.
  intros Hi Hij. unfold backoffMs.
  pose proof (pow2_pos (i - 1) ltac:(lia)) as Hpi.
  pose proof (Z.pow_le_mono_r 2 (i - 1) (j - 1) ltac:(lia) ltac:(lia)) as Hmono.
  split; [reflexivity|]. split; [lia|]. split; [lia|]. split; [lia|].
  intros H4.
  pose proof (Z.pow_le_mono_r 2 3 (i - 1) ltac:(lia) ltac:(lia)) as H8.
  change (2 ^ 3) with 8 in H8. lia.
Qed.

Lemma backoffMs_bounds_witness :
  1 <= 3 /\ 3 <= 7
  /\ backoffMs 3 <= backoffMs 7 /\ backoffMs 7 <= 2000.
Proof.
  split; [lia|]. split; [lia|].
  pose proof (backoffMs_bounds 3 7 ltac:(lia) ltac:(lia)) as (_ & _ & H1 & H2 & _).
  split; assumption.
Defined.

Lemma zsum_backoff (i : Z) (n : nat) :
  0 <= zsum (map backoffMs (zrange i n)) <= 2000 * Z.of_nat n.
Proof.
  revert i. induction n as [|n IH]; intros i; [cbn; lia|].
  cbn [zrange map zsum fold_right]. specialize (IH (i + 1)). unfold zsum in IH.
  assert (0 <= backoffMs i <= 2000).
  { unfold backoffMs. pose proof (Z.pow_nonneg 2 (i - 1) ltac:(lia)). lia. }
  lia.
Qed.

(** X10.  A run sleeps once less than it probes, and in all at most
    2000 ms per retry allowed: with no retry allowed it does not sleep. *)
Theorem total_backoff_bounded
  (world : World) (monitor : Monitor.t) (timeoutMs retries : Z) (c : Counters) :
  exists (r : Summary.t) (c' : Counters) (log : list event),
    checkWithRetries world monitor timeoutMs retries c = (Normal r, c', log)
    /\ Z.of_nat (List.length (sleepsOf log)) = Summary.attempts r - 1
    /\ 0 <= zsum (sleepsOf log) <= 2000 * Z.max 0 retries.
Proof.
  pose proof (checkWithRetries_run world monitor timeoutMs retries c) as Hrun.
  pose proof (made_bounds world monitor timeoutMs retries c) as Hb.
  eexists _, _, _. split; [exact Hrun|]. cbn [Summary.attempts].
  rewrite traceFrom_sleeps, length_map, zrange_length.
  split; [lia|].
  pose proof (zsum_backoff 1
    (stopAt world monitor timeoutMs (Z.to_nat (Z.max 1 (retries + 1))) c - 1)).
  lia.
Qed.

(** X11.  With a retry count of 0 or below, [checkWithRetries] makes one
    probe and no more: it logs that probe alone, without a sleep, and its
    summary holds the one attempt. *)
Theorem no_retry_single_probe
  (world : World) (monitor : Monitor.t) (timeoutMs retries : Z) (c : Counters) :
  retries <= 0 ->
  exists r : Summary.t,
    checkWithRetries world monitor timeoutMs retries c
    = (Normal r, next world monitor timeoutMs c, probeLog world monitor timeoutMs c)
    /\ Summary.attempts r = 1
    /\ Summary.attemptDetails r = [attemptFrom world monitor timeoutMs c]
    /\ Summary.ok r = Attempt.ok (attemptFrom world monitor timeoutMs c).
Proof.
  intros Hr. rewrite checkWithRetries_run.
  replace (Z.to_nat (Z.max 1 (retries + 1))) with 1%nat by lia.
  assert (H1 : stopAt world monitor timeoutMs 1 c = 1%nat).
  { cbn [stopAt]. destruct (Attempt.ok (attemptFrom world monitor timeoutMs c));
      reflexivity. }
  rewrite H1. cbn [traceFrom countersAfter seq map Nat.sub Z.of_nat].
  rewrite app_nil_r.
  eexists. split; [reflexivity|]. repeat split.
Qed.

Lemma no_retry_single_probe_witness :
  -3 <= 0
  /\ exists r : Summary.t,
       checkWithRetries unreachable github 8000 (-3) start
       = (Normal r, next unreachable github 8000 start,
          probeLog unreachable github 8000 start)
       /\ Summary.attempts r = 1.
Proof.
  split; [lia|].
  destruct (no_retry_single_probe unreachable github 8000 (-3) start ltac:(lia))
    as (r & Hrun & Hatt & _).
  exists r. split; assumption.
Defined.

(** X12.  [summarizeAttempts] throws exactly on the empty list of attempts;
    on any other list it returns a summary that counts the attempts, keeps
    them, is ok iff one of them is, and takes [lastStatus] and [lastError]
    from the last one. *)
Theorem summarizeAttempts_throws_iff_empty
  (monitor : Monitor.t) (attempts : list Attempt.t) :
  ((exists name msg, summarizeAttempts monitor attempts = Throw name msg)
   <-> attempts = [])
  /\ (forall front last, attempts = front ++ [last] ->
      exists r, summarizeAttempts monitor attempts = Normal r
                /\ Summary.attempts r = Z.of_nat (List.length attempts)
                /\ Summary.attemptDetails r = attempts
                /\ Summary.ok r = existsb Attempt.ok attempts
                /\ Summary.lastStatus r = Attempt.status last
                /\ Summary.lastError r = Attempt.error last).
Proof.
  split.
  - split.
    + intros (name & msg & Hthrow).
      destruct attempts as [|a rest]; [reflexivity|exfalso].
      destruct (@exists_last _ (a :: rest)) as (front & last & Heq); [discriminate|].
      rewrite Heq, summarizeAttempts_snoc in Hthrow. discriminate.
    + intros ->. eexists _, _. reflexivity.
  - intros front last ->. rewrite summarizeAttempts_snoc.
    eexists. split; [reflexivity|]. repeat split.
Qed.



(* ===================================================================== *)
(** * Further properties of [mapLimit] *)
(* ===================================================================== *)

Lemma pending_le_length (ws : list worker) : (pending ws <= List.length ws)%nat.
Proof. unfold pending. apply filter_length_le. Qed.

Lemma read_Some_lt {X} (arr : list (option X)) (idx : nat) (v : X) :
  read arr idx = Some v -> (idx < List.length arr)%nat.
Proof.
  unfold read. intros H. apply nth_error_Some.
  destruct (nth_error arr idx); [discriminate|discriminate H].
Qed.

(** X14.  [mapLimit] launches [min(limit, items.length)] workers (none for
    a limit below 1) and never adds one: at every point of every run at
    most [limit] calls of [fn] are pending, and at most one per item. *)
Theorem in_flight_bounded {A B} (undef : A) (fn : A -> B) (items : list A)
  (limit : Z) (schedule : list nat) (p : Pool.t B) :
  run undef fn items schedule (launch items limit) = Some p ->
  List.length (Pool.workers p)
  = Z.to_nat (Z.min limit (Z.of_nat (List.length items)))
  /\ (pending (Pool.workers p) <= Z.to_nat limit)%nat
  /\ (pending (Pool.workers p) <= List.length items)%nat.
Proof.
  intros Hrun. pose proof (run_workers undef fn items schedule _ _ Hrun) as Hlen.
  rewrite launch_spec in Hlen. cbv zeta in Hlen. cbn [Pool.workers] in Hlen.
  rewrite length_map, length_seq in Hlen.
  pose proof (pending_le_length (Pool.workers p)).
  split; [exact Hlen|]. lia.
Qed.

Lemma in_flight_bounded_witness :
  run 0 (fun x => 10 * x) [1; 2; 3; 4; 5] [1%nat; 1%nat] (launch [1; 2; 3; 4; 5] 2)
  = Some {| Pool.ret := [None; Some 20; Some 30]; Pool.i := 4;
            Pool.workers := [Awaiting 0; Awaiting 3] |}
  /\ (pending [Awaiting 0; Awaiting 3] <= Z.to_nat 2)%nat.
Proof.
  split; [reflexivity|].
  apply (in_flight_bounded 0 (fun x => 10 * x) [1; 2; 3; 4; 5] 2 [1%nat; 1%nat]
           {| Pool.ret := [None; Some 20; Some 30]; Pool.i := 4;
              Pool.workers := [Awaiting 0; Awaiting 3] |}).
  reflexivity.
Defined.

Section PartialResults.
Context {A B : Type}.
Variable undef : A.
Variable fn : A -> B.
Variable items : list A.

(** What is stored is right, and its index is waited on by nobody. *)
Lemma stored_resume (k w : nat) (p p' : Pool.t B) :
  Inv undef fn items k p ->
  (forall idx v, read (Pool.ret p) idx = Some v ->
     v = fn (nth idx items undef)
     /\ forall w', nth_error (Pool.workers p) w' <> Some (Awaiting idx)) ->
  resume undef fn items w p = Some p' ->
  forall idx v, read (Pool.ret p') idx = Some v ->
     v = fn (nth idx items undef)
     /\ forall w', nth_error (Pool.workers p') w' <> Some (Awaiting idx).
Proof.
  intros [Hc Hcl Hd Hs Hl Hlf Hn] HJ Hres idx' v Hread. unfold resume in Hres.
  destruct (nth_error (Pool.workers p) w) as [[idx|]|] eqn:Hw; try discriminate.
  pose proof (Hcl w idx Hw) as Hidx.
  assert (Hst : exists i' st, loopHead items (Pool.i p) = (i', st)
                              /\ (st = Finished \/ st = Awaiting (Pool.i p))).
  { unfold loopHead. destruct (Pool.i p <? List.length items)%nat; eauto. }
  destruct Hst as (i' & st & Hlh & Hst). rewrite Hlh in Hres.
  inversion Hres; subst p'; clear Hres. cbn [Pool.ret Pool.workers] in *.
  rewrite read_array_set in Hread.
  destruct (idx' =? idx)%nat eqn:E.
  - apply Nat.eqb_eq in E. subst idx'. inversion Hread; subst v.
    split; [reflexivity|]. intros w'. rewrite nth_error_set_worker, Hw.
    destruct (w' =? w)%nat eqn:Ew.
    + destruct Hst as [->| ->]; [discriminate|]. intros [= Heq]. lia.
    + intros Hw'. apply Nat.eqb_neq in Ew. apply Ew. exact (Hd _ _ _ Hw' Hw).
  - destruct (HJ idx' v Hread) as [Hv Hnone]. split; [exact Hv|].
    intros w'. rewrite nth_error_set_worker, Hw.
    destruct (w' =? w)%nat; [|apply Hnone].
    destruct Hst as [->| ->]; [discriminate|]. intros [= Heq].
    apply read_Some_lt in Hread. lia.
Qed.

Lemma stored_run (schedule : list nat) :
  forall k p p',
    Inv undef fn items k p ->
    (forall idx v, read (Pool.ret p) idx = Some v ->
       v = fn (nth idx items undef)
       /\ forall w', nth_error (Pool.workers p) w' <> Some (Awaiting idx)) ->
    run undef fn items schedule p = Some p' ->
    forall idx v, read (Pool.ret p') idx = Some v ->
       v = fn (nth idx items undef)
       /\ forall w', nth_error (Pool.workers p') w' <> Some (Awaiting idx).
Proof.
  induction schedule as [|w rest IH]; intros k p p' Hinv HJ Hrun; cbn in Hrun.
  - inversion Hrun; subst. exact HJ.
  - destruct (resume undef fn items w p) as [p1|] eqn:Hres; [|discriminate].
    apply (IH (S k) p1 p'); [|
      exact (stored_resume k w p p1 Hinv HJ Hres)|exact Hrun].
    exact (Inv_resume undef fn items k w p p1 Hinv Hres).
Qed.

End PartialResults.

(** X15.  At every point of every run of [mapLimit]: an entry of [ret]
    that is set sits at the index of an item and is [fn] of that item; no
    two workers wait on the same index; and the index a worker waits on is
    one of an item whose entry is still unset, so no entry is written
    twice. *)
Theorem results_never_wrong {A B} (undef : A) (fn : A -> B) (items : list A)
  (limit : Z) (schedule : list nat) (p : Pool.t B) :
  run undef fn items schedule (launch items limit) = Some p ->
  (forall idx v, read (Pool.ret p) idx = Some v ->
     (idx < List.length items)%nat /\ v = fn (nth idx items undef))
  /\ (forall w1 w2 idx,
        nth_error (Pool.workers p) w1 = Some (Awaiting idx) ->
        nth_error (Pool.workers p) w2 = Some (Awaiting idx) -> w1 = w2)
  /\ (forall w idx,
        nth_error (Pool.workers p) w = Some (Awaiting idx) ->
        (idx < List.length items)%nat /\ read (Pool.ret p) idx = None).
Proof.
  intros Hrun.
  pose proof (Inv_launch undef fn items limit) as Hinv0.
  pose proof (Inv_run undef fn items schedule _ _ _ Hinv0 Hrun) as Hinv.
  assert (HJ : forall idx v, read (Pool.ret p) idx = Some v ->
             v = fn (nth idx items undef)
             /\ forall w', nth_error (Pool.workers p) w' <> Some (Awaiting idx)).
  { apply (stored_run undef fn items schedule O _ p Hinv0); [|exact Hrun].
    intros idx v Hread. rewrite launch_spec in Hread. cbv zeta in Hread.
    cbn [Pool.ret] in Hread. rewrite read_nil in Hread. discriminate. }
  destruct Hinv as [Hc Hcl Hd Hs Hl Hlf Hn].
  split; [|split].
  - intros idx v Hread. split; [|apply (HJ idx v Hread)].
    apply read_Some_lt in Hread. lia.
  - exact Hd.
  - intros w idx Hw. split; [specialize (Hcl w idx Hw); lia|].
    destruct (read (Pool.ret p) idx) as [v|] eqn:Hread; [|reflexivity].
    destruct (HJ idx v Hread) as [_ Hnone]. destruct (Hnone w Hw).
Qed.

Lemma results_never_wrong_witness :
  run 0 (fun x => 10 * x) [1; 2; 3; 4; 5] [1%nat; 1%nat] (launch [1; 2; 3; 4; 5] 2)
  = Some {| Pool.ret := [None; Some 20; Some 30]; Pool.i := 4;
            Pool.workers := [Awaiting 0; Awaiting 3] |}
  /\ forall idx v, read [None; Some 20; Some 30] idx = Some v ->
       (idx < 5)%nat /\ v = 10 * nth idx [1; 2; 3; 4; 5] 0.
Proof.
  split; [reflexivity|].
  apply (results_never_wrong 0 (fun x => 10 * x) [1; 2; 3; 4; 5] 2 [1%nat; 1%nat]
           {| Pool.ret := [None; Some 20; Some 30]; Pool.i := 4;
              Pool.workers := [Awaiting 0; Awaiting 3] |}).
  reflexivity.
Defined.

(** X16.  With a limit below 1 [mapLimit] launches no worker: it returns
    the empty array at once, whatever the items, and no call of [fn] is
    ever pending. *)
Theorem nonpositive_limit_no_results {A B} (undef : A) (fn : A -> B)
  (items : list A) (limit : Z) (schedule : list nat) :
  limit <= 0 ->
  Pool.workers (launch (B := B) items limit) = []
  /\ mapLimit undef fn items limit schedule
     = match schedule with
       | [] => Some []
       | _ :: _ => None
       end.
Proof.
  intros Hlim. unfold mapLimit. rewrite launch_spec. cbv zeta.
  replace (Z.to_nat (Z.min limit (Z.of_nat (List.length items)))) with O by lia.
  cbn [seq map Pool.workers]. split; [reflexivity|].
  destruct schedule as [|w rest]; [reflexivity|].
  cbn [run]. unfold resume. cbn [Pool.workers].
  destruct w; reflexivity.
Qed.

Lemma nonpositive_limit_no_results_witness :
  -1 <= 0
  /\ mapLimit EmptyString (fun u : string => String.length u)
       ["a"; "bc"] (-1) [] = Some [].
Proof.
  split; [lia|].
  exact (proj2 (nonpositive_limit_no_results EmptyString
                  (fun u : string => String.length u) ["a"; "bc"] (-1) []
                  ltac:(lia))).
Defined.

(* ===================================================================== *)
(** * Further properties of the handler *)
(* ===================================================================== *)

Lemma filter_all_ok (results : list Summary.t) :
  forallb Summary.ok results = true ->
  filter (fun r => negb (Summary.ok r)) results = [].
Proof.
  induction results as [|r rest IH]; cbn; [reflexivity|].
  intros H. apply andb_true_iff in H as [Hr Hrest]. rewrite Hr. cbn. exact (IH Hrest).
Qed.

(** X17.  When every result is ok the handler sends no mail and does not
    look at the mail settings: whatever they are, and whatever sending
    would come to, the response is a 200 with [ok] true, [emailSent]
    false, an empty [down] and all results counted as up. *)
Theorem all_up_no_email (env : Env.t) (send : send_outcome) (results : list Summary.t) :
  forallb Summary.ok results = true ->
  report env send results
  = (200, {| Body.ok := true; Body.error := None; Body.details := None;
             Body.emailSent := Some false; Body.emailId := None;
             Body.totals := {| Totals.checked := Z.of_nat (List.length results);
                               Totals.down := 0;
                               Totals.up := Z.of_nat (List.length results) |};
             Body.down := []; Body.results := results |}).
Proof.
  intros Hall. unfold report. rewrite (filter_all_ok results Hall).
  cbn [List.length Z.of_nat Z.gtb Z.compare Z.eqb]. rewrite Z.sub_0_r. reflexivity.
Qed.

Lemma all_up_no_email_witness :
  forallb Summary.ok
    [ {| Summary.url := "https://a.example/"; Summary.ok := true;
         Summary.expect := JStr "2xx3xx"; Summary.method := "HEAD";
         Summary.attempts := 1; Summary.lastStatus := Some 200;
         Summary.lastError := None; Summary.attemptDetails := [] |};
      {| Summary.url := "https://b.example/"; Summary.ok := true;
         Summary.expect := JStr "2xx3xx"; Summary.method := "GET";
         Summary.attempts := 3; Summary.lastStatus := Some 204;
         Summary.lastError := None; Summary.attemptDetails := [] |} ] = true
  /\ (let '(status, body) :=
         report {| Env.RESEND_API_KEY := None; Env.ALERT_EMAIL_TO := None;
                   Env.ALERT_EMAIL_FROM := None |}
           (SendFailed "unreachable")
           [ {| Summary.url := "https://a.example/"; Summary.ok := true;
                Summary.expect := JStr "2xx3xx"; Summary.method := "HEAD";
                Summary.attempts := 1; Summary.lastStatus := Some 200;
                Summary.lastError := None; Summary.attemptDetails := [] |};
             {| Summary.url := "https://b.example/"; Summary.ok := true;
                Summary.expect := JStr "2xx3xx"; Summary.method := "GET";
                Summary.attempts := 3; Summary.lastStatus := Some 204;
                Summary.lastError := None; Summary.attemptDetails := [] |} ] in
       status = 200 /\ Body.ok body = true /\ Body.emailSent body = Some false
       /\ Body.totals body
          = {| Totals.checked := 2; Totals.down := 0; Totals.up := 2 |}).
Proof.
  split; [reflexivity|].
  match goal with
  | |- context [report ?env ?send ?results] =>
      rewrite (all_up_no_email env send results eq_refl)
  end.
  repeat split.
Defined.

(** X18.  The status of the response is 200, 500 or 502.  It is 500
    exactly when some target is down and one of the three mail settings is
    missing or empty; 502 exactly when some target is down, the settings
    are there and sending fails.  A 500 or 502 has [ok] false, an [error]
    and no [emailSent]; a 200 has no [error], and its [emailSent] is true
    exactly when its [ok] is false: a mail went out for the targets that
    are down. *)
Theorem report_status (env : Env.t) (send : send_outcome) (results : list Summary.t) :
  let status := fst (report env send results) in
  let body := snd (report env send results) in
  let missing := unset (Env.RESEND_API_KEY env) || unset (Env.ALERT_EMAIL_TO env)
                 || unset (Env.ALERT_EMAIL_FROM env) in
  (status = 200 \/ status = 500 \/ status = 502)
  /\ (status = 500 <-> Body.down body <> [] /\ missing = true)
  /\ (status = 502 <->
      Body.down body <> [] /\ missing = false /\ exists msg, send = SendFailed msg)
  /\ (status <> 200 ->
      Body.ok body = false /\ Body.error body <> None /\ Body.emailSent body = None)
  /\ (status = 200 ->
      Body.error body = None /\ Body.emailSent body = Some (negb (Body.ok body))).
Proof.
  cbv zeta. unfold report.
  destruct (filter (fun r => negb (Summary.ok r)) results) as [|d rest] eqn:Hdown.
  - cbn. intuition (try discriminate; try congruence).
  - change (Z.of_nat (List.length (d :: rest)) >? 0) with true. cbn iota.
    destruct (unset (Env.RESEND_API_KEY env) || unset (Env.ALERT_EMAIL_TO env)
              || unset (Env.ALERT_EMAIL_FROM env)) eqn:Hmiss.
    + cbn. intuition (try discriminate; try congruence).
    + destruct send as [id|msg]; cbn.
      * intuition (try discriminate; try congruence).
        match goal with H : exists _, _ |- _ => destruct H; discriminate end.
      * intuition (try discriminate; try congruence). eauto.
Qed.

Lemma orString_empty (auth : option string) (s : string) :
  orString auth EmptyString = s <-> auth = Some s \/ (auth = None /\ s = EmptyString).
Proof.
  destruct auth as [a|]; cbn.
  - destruct (a =? EmptyString)%string eqn:E.
    + apply String.eqb_eq in E. subst a. split.
      * intros <-. now left.
      * intros [[= <-]|[H _]]; [reflexivity|discriminate].
    + split.
      * intros <-. now left.
      * intros [[= <-]|[H _]]; [reflexivity|discriminate].
  - split.
    + intros <-. now right.
    + intros [H|[_ ->]]; [discriminate|reflexivity].
Qed.

(** X19.  The guard of the handler.  With no token configured, or an empty
    one, every request is let through to the report.  With a token [t], a
    request is let through exactly when its [authorization] header is
    ["Bearer " ++ t]; any other header, and no header at all, get the 401
    with the error ["Unauthorized"]. *)
Theorem handler_guard (token auth : option string) (env : Env.t)
  (send : send_outcome) (results : list Summary.t) :
  let reported :=
    Reported (fst (report env send results)) (snd (report env send results)) in
  (token = None \/ token = Some EmptyString ->
   handler token auth env send results = reported)
  /\ (forall t, token = Some t -> t <> EmptyString ->
      (auth = Some ("Bearer " ++ t)%string ->
       handler token auth env send results = reported)
      /\ (auth <> Some ("Bearer " ++ t)%string ->
          handler token auth env send results = Denied 401 "Unauthorized")).
Proof.
  cbv zeta. unfold handler.
  destruct (report env send results) as [status body]. cbn [fst snd].
  split.
  - intros [-> | ->]; reflexivity.
  - intros t -> Ht. unfold authorized.
    apply String.eqb_neq in Ht. rewrite Ht. split.
    + intros ->. cbn [orString].
      replace (("Bearer " ++ t)%string =? EmptyString)%string with false
        by reflexivity.
      now rewrite String.eqb_refl.
    + intros Hne.
      destruct (orString auth EmptyString =? ("Bearer " ++ t)%string)%string eqn:E;
        [|reflexivity].
      apply String.eqb_eq in E. apply orString_empty in E as [E|[_ E]].
      * contradiction.
      * discriminate.
Qed.

(* ===================================================================== *)
(** * The verdict of a run *)
(* ===================================================================== *)

(** X20.  A monitor is reported ok exactly when one of the
    [max(1, retries + 1)] probes the world holds for it succeeds: the loop
    neither misses a success within its budget nor reports one it has not
    seen. *)
Theorem up_iff_some_probe_ok
  (world : World) (monitor : Monitor.t) (timeoutMs retries : Z) (c : Counters) :
  exists (r : Summary.t) (c' : Counters) (log : list event),
    checkWithRetries world monitor timeoutMs retries c = (Normal r, c', log)
    /\ (Summary.ok r = true <->
        exists j, (j < Z.to_nat (Z.max 1 (retries + 1)))%nat
                  /\ Attempt.ok (probeAt world monitor timeoutMs c j) = true).
Proof.
  pose proof (checkWithRetries_run world monitor timeoutMs retries c) as Hrun.
  pose proof (made_bounds world monitor timeoutMs retries c) as Hb.
  eexists _, _, _. split; [exact Hrun|]. cbn [Summary.ok].
  set (allowed := Z.to_nat (Z.max 1 (retries + 1))) in *.
  set (made := stopAt world monitor timeoutMs allowed c) in *.
  split.
  - intros Hok. exists (made - 1)%nat. split; [lia|exact Hok].
  - intros (j & Hj & Hok).
    destruct (Attempt.ok (probeAt world monitor timeoutMs c (made - 1))) eqn:Hlast;
      [reflexivity|exfalso].
    assert (Hfull : made = allowed).
    { destruct (Nat.eq_dec made allowed) as [H|H]; [exact H|].
      pose proof (stopAt_early world monitor timeoutMs allowed c ltac:(fold made; lia)) as He.
      fold made in He. congruence. }
    destruct (Nat.eq_dec j (made - 1)) as [->|Hne]; [congruence|].
    pose proof (stopAt_failed_before world monitor timeoutMs allowed c j
                  ltac:(fold made; lia)) as Hf.
    congruence.
Qed.

(* ===================================================================== *)
(** * Bounds the engine cannot compare with *)
(* ===================================================================== *)

(** A bound with an own [toString] entry makes the comparison throw, and
    the rule, its negation and a set of ranges that reaches it with it. *)
Example unprintable_bound_throws :
  let bad := JObj [("toString", JNull)] in
  matchesExpectation plain (Some 200) (JObj [("between", JArr [bad; JNum 300])])
    = Throw "TypeError" (primitiveError plain)
  /\ matchesExpectation plain (Some 200)
       (negate (JObj [("between", JArr [bad; JNum 300])]))
     = Throw "TypeError" (primitiveError plain)
  /\ matchesExpectation plain (Some 200)
       (JObj [("oneOfRanges",
               JArr [JArr [bad; JNum 300]; JArr [JNum 100; JNum 300]])])
     = Throw "TypeError" (primitiveError plain)
  /\ matchesExpectation plain (Some 200)
       (JObj [("oneOfRanges",
               JArr [JArr [JNum 100; JNum 300]; JArr [bad; JNum 300]])])
     = Normal true
  /\ matchesExpectation plain (Some 200) (JObj [("between", JArr [JNum 1000; bad])])
     = Normal false.
Proof. repeat split. Qed.

(** The throw of the matcher is caught by [checkOnce]: the attempt has no
    status and carries the message of the error. *)
Example matcher_throw_is_caught :
  let bad := JObj [("toString", JNull)] in
  let monitor := {| Monitor.url := "https://example.com/"; Monitor.method := Some "GET";
                    Monitor.expect := JObj [("between", JArr [bad; JNum 300])];
                    Monitor.timeoutMs := None; Monitor.retries := None |} in
  let world := {| fetchOutcome := fun _ _ _ => Responded 200 "OK";
                  clock := fun n => Z.of_nat n;
                  engine := plain |} in
  let attempt := fst (fst (checkOnce world monitor 8000 start)) in
  Attempt.ok attempt = false
  /\ Attempt.status attempt = None
  /\ Attempt.error attempt = Some (primitiveError plain).
Proof. repeat split. Qed.
